(** * kx-vscode language server: token queries and lint rules

  A shallow embedding of

  - [server/src/util/index.ts]    (exported helpers),
  - [server/src/qLangServer.ts]   (private helpers, [findIdentifiers],
                                   the request handlers),
  - [server/src/linter/checks.ts] (token lint rules),

  followed by the properties of these functions.

  Conventions.  A JavaScript value of type [T | undefined] is an
  [option T]; strict equality [===] on such values is [opt_eqb].  A
  reference to a lambda token is an address ([ref]); what the code reads
  through the reference ([scope.nullary]) is read from a heap, so two
  tokens that share a scope share one object.  [Array.prototype.find] is
  [List.find]; its result is truthy exactly when it is [Some _]. *)

From Stdlib Require Import List Bool ZArith String Ascii Lia PeanoNat.
Import ListNotations.

Set Implicit Arguments.
Set Warnings "-register-all".

(* ================================================================= *)
(** * JavaScript primitives used by the sources *)

Module JS.

(** [a === b] on [T | undefined]. *)
Definition opt_eqb {A : Type} (eqb : A -> A -> bool) (a b : option A) : bool :=
  match a, b with
  | Some x, Some y => eqb x y
  | None, None => true
  | _, _ => false
  end.

(** [a === b] on [string | undefined]. *)
Definition str_eq (a b : option string) : bool := opt_eqb String.eqb a b.

(** [a === b] on references to objects (or [undefined]). *)
Definition ref_eq (a b : option nat) : bool := opt_eqb Nat.eqb a b.

(** Truthiness of a value that is an object or [undefined]. *)
Definition truthy {A : Type} (a : option A) : bool :=
  match a with Some _ => true | None => false end.

(** [n || d] on [number | undefined]: [0] and [undefined] are falsy. *)
Definition num_or (n : option Z) (d : Z) : Z :=
  match n with
  | Some v => if Z.eqb v 0 then d else v
  | None => d
  end.

(** [s || d] on [string | undefined]: the empty string and [undefined]
    are falsy. *)
Definition str_or (s : option string) (d : string) : string :=
  match s with
  | Some EmptyString => d
  | Some v => v
  | None => d
  end.

(** [s.startsWith(p)]. *)
Definition startsWith (s p : string) : bool := String.prefix p s.

(** The rest of [s] after its first [n] characters. *)
Fixpoint drop (n : nat) (s : string) : string :=
  match n, s with
  | O, _ => s
  | S _, EmptyString => EmptyString
  | S m, String _ r => drop m r
  end.

(** [s.replace(pat, "")] for a string pattern: the first occurrence of
    [pat] in [s] is removed, and [s] is returned as it is when there is
    none. *)
Fixpoint removeFirst (pat s : string) : string :=
  if String.prefix pat s then drop (String.length pat) s
  else match s with
       | EmptyString => EmptyString
       | String c r => String c (removeFirst pat r)
       end.

End JS.

(* ================================================================= *)
(** * The parser's vocabulary ([server/src/parser]) *)

Module Parser.

(** The address of a lambda token: the identity that [===] compares. *)
Definition ref := nat.

(** What the server reads through a reference to a lambda token. *)
Record LambdaToken := { nullary : bool }.

(** The objects the tokens' [scope] and [lambda] fields refer to. *)
Definition Heap := ref -> LambdaToken.

(** Modelled from the spec: the token categories of section 3 (the
    parser's token vocabulary is not part of the sources).  The server
    tests [tokenType === Identifier], the linter
    [tokenType === DateTimeLiteral]. *)
Inductive TokenType :=
| Identifier | NumberLiteral | DateTimeLiteral | StringLiteral
| SymbolLiteral | Operator | Iterator | Colon | Bracket | LCurly | RCurly.

(** Modelled from the spec: a token's role. *)
Inductive TokenKind := Reference | Assignment.

(** Modelled from the spec: the four identifier kinds. *)
Inductive IdentifierKind := Argument | Local | Global | Unassignable.

(** Modelled from the spec: the syntax-error tag. *)
Inductive SyntaxError := InvalidEscape.

(** Modelled from the spec: the fields of a token (section 3); the type
    declaration itself is not part of the sources.  The span fields are
    optional as in the lexer's token interface, which is why the server
    writes [token.startLine || 1]. *)
Record Token := mkToken {
  image : string;
  tokenType : TokenType;
  startLine : option Z;
  startColumn : option Z;
  endLine : option Z;
  endColumn : option Z;
  kind : TokenKind;
  identifier : option string;
  identifierKind : IdentifierKind;
  namespace : option string;
  scope : option ref;
  lambda : option ref;
  error : option SyntaxError
}.

Definition tokenType_eqb (a b : TokenType) : bool :=
  match a, b with
  | Identifier, Identifier | NumberLiteral, NumberLiteral
  | DateTimeLiteral, DateTimeLiteral | StringLiteral, StringLiteral
  | SymbolLiteral, SymbolLiteral | Operator, Operator
  | Iterator, Iterator | Colon, Colon | Bracket, Bracket
  | LCurly, LCurly | RCurly, RCurly => true
  | _, _ => false
  end.

Definition isAssignment (k : TokenKind) : bool :=
  match k with Assignment => true | Reference => false end.

Definition isUnassignable (k : IdentifierKind) : bool :=
  match k with Unassignable => true | _ => false end.

Definition isArgument (k : IdentifierKind) : bool :=
  match k with Argument => true | _ => false end.

End Parser.

(* ================================================================= *)
(** * The protocol's data types ([vscode-languageserver]) *)

Module Protocol.

Record Position := { line : Z; character : Z }.

Record Range := { start : Position; end_ : Position }.

(** [Range.create(startLine, startCharacter, endLine, endCharacter)]. *)
Definition Range_create (sl sc el ec : Z) : Range :=
  {| start := {| line := sl; character := sc |};
     end_ := {| line := el; character := ec |} |}.

Record Location := { uri : string; range : Range }.

(** [Location.create(uri, range)]. *)
Definition Location_create (u : string) (r : Range) : Location :=
  {| uri := u; range := r |}.

Record TextEdit := { editRange : Range; newText : string }.

(** [TextEdit.replace(range, newText)]. *)
Definition TextEdit_replace (r : Range) (s : string) : TextEdit :=
  {| editRange := r; newText := s |}.

(** [{ changes: { [uri]: edits } }]: one document and its edits. *)
Record WorkspaceEdit := { changes : list (string * list TextEdit) }.

(** The protocol's symbol kinds, in the order of their codes 1..26. *)
Module SymbolKind.
Inductive t :=
| File | Module | Namespace | Package | Class | Method | Property
| Field | Constructor | Enum | Interface | Function | Variable_
| Constant | String | Number | Boolean | Array | Object | Key | Null
| EnumMember | Struct | Event | Operator | TypeParameter.
End SymbolKind.

(** The protocol's completion item kinds, in the order of their codes
    1..25. *)
Module CompletionItemKind.
Inductive t :=
| Text | Method | Function | Constructor | Field | Variable_ | Class
| Interface | Module | Property | Unit | Value | Enum | Keyword | Snippet
| Color | File | Reference | Folder | EnumMember | Constant | Struct
| Event | Operator | TypeParameter.
End CompletionItemKind.

Inductive DocumentSymbol :=
| DocumentSymbol_create
    (name : string) (detail : option string) (kind : SymbolKind.t)
    (range selectionRange : Range) (children : list DocumentSymbol).

Definition symbolName (d : DocumentSymbol) : string :=
  match d with DocumentSymbol_create n _ _ _ _ _ => n end.

Definition symbolKind (d : DocumentSymbol) : SymbolKind.t :=
  match d with DocumentSymbol_create _ _ k _ _ _ => k end.

Definition symbolRange (d : DocumentSymbol) : Range :=
  match d with DocumentSymbol_create _ _ _ r _ _ => r end.

Definition symbolSelectionRange (d : DocumentSymbol) : Range :=
  match d with DocumentSymbol_create _ _ _ _ r _ => r end.

Definition symbolChildren (d : DocumentSymbol) : list DocumentSymbol :=
  match d with DocumentSymbol_create _ _ _ _ _ c => c end.

Record CompletionItem := { label : string; itemKind : CompletionItemKind.t }.

End Protocol.

(* ================================================================= *)
(** * [server/src/util/index.ts] *)

Module Util.
Import Parser Protocol.

Definition rangeFromToken (token : Token) : Range :=
  Range_create
    (JS.num_or (startLine token) 1 - 1)
    (JS.num_or (startColumn token) 1 - 1)
    (JS.num_or (endLine token) 1 - 1)
    (JS.num_or (endColumn token) 1).

Definition isLocal (heap : Heap) (tokens : list Token) (target : Token) : bool :=
  match scope target with
  | None => false
  | Some s =>
      if nullary (heap s)
         && (JS.str_eq (identifier target) (Some "x"%string)
             || JS.str_eq (identifier target) (Some "y"%string)
             || JS.str_eq (identifier target) (Some "z"%string))
      then true
      else JS.truthy
             (find (fun token =>
                      isAssignment (kind token)
                      && JS.ref_eq (scope token) (scope target)
                      && JS.str_eq (identifier token) (identifier target))
                   tokens)
  end.

Definition positionToToken (tokens : list Token) (position : Position)
  : option Token :=
  find (fun token =>
          let r := rangeFromToken token in
          (line (start r) <=? line position)%Z
          && (line (end_ r) >=? line position)%Z
          && (character (start r) <=? character position)%Z
          && (character (end_ r) >=? character position)%Z)
       tokens.

Definition getLabel (token : Token) (source : option Token) : string :=
  let label := JS.str_or (identifier token) (image token) in
  match source with
  | Some src =>
      match namespace src with
      | Some ns =>
          if negb (String.eqb ns EmptyString) && JS.startsWith label ns
          then JS.removeFirst (ns ++ ".")%string label
          else label
      | None => label
      end
  | None => label
  end.

End Util.

(* ================================================================= *)
(** * [server/src/qLangServer.ts] *)

Module QLangServer.
Import Parser Protocol.

Inductive FindKind := Reference | Definition_ | Rename | Completion.

(** ** The module's private helpers (lines 46-98) *)

Definition rangeFromToken (token : Token) : Range :=
  Range_create
    (JS.num_or (startLine token) 1 - 1)
    (JS.num_or (startColumn token) 1 - 1)
    (JS.num_or (endLine token) 1 - 1)
    (JS.num_or (endColumn token) 1).

Definition isLocal (heap : Heap) (tokens : list Token) (target : Token) : bool :=
  match scope target with
  | None => false
  | Some s =>
      if nullary (heap s)
         && (JS.str_eq (identifier target) (Some "x"%string)
             || JS.str_eq (identifier target) (Some "y"%string)
             || JS.str_eq (identifier target) (Some "z"%string))
      then true
      else JS.truthy
             (find (fun token =>
                      isAssignment (kind token)
                      && JS.ref_eq (scope token) (scope target)
                      && JS.str_eq (identifier token) (identifier target))
                   tokens)
  end.

Definition positionToToken (tokens : list Token) (position : Position)
  : option Token :=
  find (fun token =>
          let r := rangeFromToken token in
          (line (start r) <=? line position)%Z
          && (line (end_ r) >=? line position)%Z
          && (character (start r) <=? character position)%Z
          && (character (end_ r) >=? character position)%Z)
       tokens.

Definition getLabel (token : Token) (source : option Token) : string :=
  let label := JS.str_or (identifier token) (image token) in
  match source with
  | Some src =>
      match namespace src with
      | Some ns =>
          if negb (String.eqb ns EmptyString) && JS.startsWith label ns
          then JS.removeFirst (ns ++ ".")%string label
          else label
      | None => label
      end
  | None => label
  end.

(** ** The class [QLangServer]

    [this.parse(textDocument)] is the parser's token array for the
    document (empty for an unknown document); the handlers below take it
    as [tokens].  [heap] holds the lambda tokens that [scope] and [lambda]
    refer to. *)

Section Handlers.
Variable heap : Heap.

(** [token.identifier?.startsWith(".")]. *)
Definition dotted (token : Token) : bool :=
  match identifier token with
  | Some i => JS.startsWith i "."%string
  | None => false
  end.

(** The filter of the [Completion] case (lines 271-276). *)
Definition completionFilter (source token : Token) : bool :=
  isAssignment (kind token)
  && negb (isUnassignable (identifierKind token))
  && (dotted token || JS.str_eq (namespace token) (namespace source))
  && (negb (JS.truthy (scope token))
      || JS.ref_eq (scope token) (scope source)).

(** One step of the [forEach] of the [Completion] case (lines 279-283):
    [token] is pushed unless an item with its identifier is there. *)
Definition pushUnique (completions : list Token) (token : Token) : list Token :=
  if negb (JS.truthy
             (find (fun item => JS.str_eq (identifier item) (identifier token))
                   completions))
  then completions ++ [token]
  else completions.

Definition findIdentifiers
  (kind_ : FindKind) (tokens : list Token) (source : option Token) : list Token :=
  match source with
  | None => []
  | Some source =>
      if isUnassignable (identifierKind source) then []
      else
        match kind_ with
        | Rename | Reference =>
            if isLocal heap tokens source
            then filter (fun token =>
                           tokenType_eqb (tokenType token) Identifier
                           && negb (isUnassignable (identifierKind token))
                           && JS.str_eq (identifier token) (identifier source)
                           && JS.ref_eq (scope token) (scope source))
                        tokens
            else filter (fun token =>
                           tokenType_eqb (tokenType token) Identifier
                           && negb (isUnassignable (identifierKind token))
                           && JS.str_eq (identifier token) (identifier source)
                           && negb (isLocal heap tokens token))
                        tokens
        | Definition_ =>
            if isLocal heap tokens source
            then filter (fun token =>
                           isAssignment (kind token)
                           && negb (isUnassignable (identifierKind token))
                           && JS.str_eq (identifier token) (identifier source)
                           && JS.ref_eq (scope token) (scope source))
                        tokens
            else filter (fun token =>
                           isAssignment (kind token)
                           && negb (isUnassignable (identifierKind token))
                           && JS.str_eq (identifier token) (identifier source)
                           && negb (isLocal heap tokens token))
                        tokens
        | Completion =>
            fold_left pushUnique (filter (completionFilter source) tokens) []
        end
  end.

Definition onDocumentSymbol (tokens : list Token) : list DocumentSymbol :=
  map (fun token =>
         DocumentSymbol_create
           (getLabel token None)
           None
           (if JS.truthy (lambda token)
            then SymbolKind.Object else SymbolKind.Variable_)
           (rangeFromToken token)
           (rangeFromToken token)
           (map (fun token =>
                   DocumentSymbol_create
                     (image token)
                     None
                     (if isArgument (identifierKind token)
                      then SymbolKind.Array else SymbolKind.Variable_)
                     (rangeFromToken token)
                     (rangeFromToken token)
                     [])
                (filter (fun child =>
                           JS.truthy (scope child)
                           && JS.ref_eq (scope child) (lambda token)
                           && isAssignment (kind child))
                        tokens)))
      (filter (fun token =>
                 isAssignment (kind token) && negb (JS.truthy (scope token)))
              tokens).

Definition onReferences
  (tokens : list Token) (uri : string) (position : Position) : list Location :=
  let source := positionToToken tokens position in
  map (fun token => Location_create uri (rangeFromToken token))
      (findIdentifiers Reference tokens source).

Definition onDefinition
  (tokens : list Token) (uri : string) (position : Position) : list Location :=
  let source := positionToToken tokens position in
  map (fun token => Location_create uri (rangeFromToken token))
      (findIdentifiers Definition_ tokens source).

Definition onRenameRequest
  (tokens : list Token) (uri : string) (position : Position) (newName : string)
  : option WorkspaceEdit :=
  let source := positionToToken tokens position in
  let edits :=
    map (fun token => TextEdit_replace (rangeFromToken token) newName)
        (findIdentifiers Rename tokens source) in
  if (List.length edits =? 0)%nat then None
  else Some {| changes := [(uri, edits)] |}.

Definition onCompletion
  (tokens : list Token) (position : Position) : list CompletionItem :=
  let source := positionToToken tokens position in
  map (fun token =>
         {| label := getLabel token source;
            itemKind := if JS.truthy (lambda token)
                        then CompletionItemKind.Function
                        else CompletionItemKind.Variable_ |})
      (findIdentifiers Completion tokens source).

End Handlers.
End QLangServer.

(* ================================================================= *)
(** * [server/src/linter/checks.ts] *)

Module Linter.
Import Parser.

(** The rules call the helpers [inParam], [assigned], [assignable],
    [inLambda], [identifier] and [ordered], which they import from the
    parser; the parser is not part of the sources, so the helpers are the
    parameters of this section. *)
Section Checks.
Variables inParam assigned assignable : Token -> bool.
Variable inLambda : Token -> option ref.
Variable identifier : Token -> option string.
Variable ordered : Token -> Token -> bool.

Definition deprecatedDatetime (tokens : list Token) : list Token :=
  filter (fun token => tokenType_eqb (tokenType token) DateTimeLiteral) tokens.

Definition invalidEscape (tokens : list Token) : list Token :=
  filter (fun token =>
            match error token with
            | Some InvalidEscape => true
            | None => false
            end)
         tokens.

Definition unusedParam (tokens : list Token) : list Token :=
  filter (fun token =>
            inParam token
            && assigned token
            && assignable token
            && negb (JS.truthy
                       (find (fun target =>
                                negb (assigned target)
                                && assignable target
                                && JS.ref_eq (inLambda target) (inLambda token)
                                && JS.str_eq (identifier target) (identifier token))
                             tokens)))
         tokens.

Definition unusedVar (tokens : list Token) : list Token :=
  filter (fun token =>
            negb (inParam token)
            && JS.truthy (inLambda token)
            && assigned token
            && assignable token
            && negb (JS.truthy
                       (find (fun target =>
                                negb (assigned target)
                                && assignable target
                                && JS.ref_eq (inLambda target) (inLambda token)
                                && JS.str_eq (identifier target) (identifier token))
                             tokens)))
         tokens.

Definition declaredAfterUse (tokens : list Token) : list Token :=
  filter (fun token =>
            JS.truthy
              (find (fun target =>
                       negb (assigned target)
                       && assignable target
                       && JS.ref_eq (inLambda target) (inLambda token)
                       && JS.str_eq (identifier target) (identifier token)
                       && ordered target token)
                    tokens))
         (filter (fun token =>
                    negb (inParam token) && assigned token && assignable token)
                 tokens).

End Checks.
End Linter.

(* ================================================================= *)
(** * The vocabulary of the properties *)

Module Props.
Import Parser Protocol.

(** [Selected P l r]: [r] holds exactly the elements of [l] that satisfy
    [P], one entry per element, in the order of [l]. *)
Inductive Selected {A : Type} (P : A -> Prop) : list A -> list A -> Prop :=
| Selected_nil : Selected P [] []
| Selected_keep x l r : P x -> Selected P l r -> Selected P (x :: l) (x :: r)
| Selected_skip x l r : ~ P x -> Selected P l r -> Selected P (x :: l) r.

(** [FirstOccurrences P seen l r]: [r] holds the elements of [l] that
    satisfy [P], in the order of [l], where an element whose identifier was
    met before (in [seen], or on an earlier element of [l] that satisfies
    [P]) is left out. *)
Inductive FirstOccurrences (P : Token -> Prop)
  : list (option string) -> list Token -> list Token -> Prop :=
| First_nil seen : FirstOccurrences P seen [] []
| First_keep seen t l r :
    P t -> ~ In (identifier t) seen ->
    FirstOccurrences P (identifier t :: seen) l r ->
    FirstOccurrences P seen (t :: l) (t :: r)
| First_dup seen t l r :
    P t -> In (identifier t) seen ->
    FirstOccurrences P seen l r ->
    FirstOccurrences P seen (t :: l) r
| First_skip seen t l r :
    ~ P t ->
    FirstOccurrences P seen l r ->
    FirstOccurrences P seen (t :: l) r.

(** The three implicit positional names. *)
Definition implicitName (i : option string) : Prop :=
  i = Some "x"%string \/ i = Some "y"%string \/ i = Some "z"%string.

(** The locality test of section 4.2, as the spec words it. *)
Definition LocalIn (heap : Heap) (tokens : list Token) (target : Token) : Prop :=
  exists s,
    scope target = Some s
    /\ ((implicitName (identifier target) /\ nullary (heap s) = true)
        \/ exists token,
             In token tokens
             /\ kind token = Assignment
             /\ scope token = Some s
             /\ identifier token = identifier target).

(** The span of [token], as the server maps it, contains [position]. *)
Definition spanContains (token : Token) (position : Position) : Prop :=
  let r := QLangServer.rangeFromToken token in
  (line (start r) <= line position <= line (end_ r))%Z
  /\ (character (start r) <= character position <= character (end_ r))%Z.

(** The matching rule of Reference, Definition and Rename (section 4.4):
    a Local source matches the tokens of its scope with its identifier,
    any other source the tokens with its identifier that are not Local
    within their own scope. *)
Definition Matches (heap : Heap) (tokens : list Token) (source token : Token)
  : Prop :=
  identifier token = identifier source
  /\ if QLangServer.isLocal heap tokens source
     then scope token = scope source
     else QLangServer.isLocal heap tokens token = false.

(** The candidates of Reference and Rename, with the guards of the code. *)
Definition ReferenceCandidate
  (heap : Heap) (tokens : list Token) (source token : Token) : Prop :=
  tokenType token = Identifier
  /\ identifierKind token <> Unassignable
  /\ Matches heap tokens source token.

(** The candidates of Definition, with the guards of the code. *)
Definition DefinitionCandidate
  (heap : Heap) (tokens : list Token) (source token : Token) : Prop :=
  kind token = Assignment
  /\ identifierKind token <> Unassignable
  /\ Matches heap tokens source token.

(** A token's identifier is globally qualified: it starts with a dot. *)
Definition globallyQualified (token : Token) : Prop :=
  exists i, identifier token = Some i /\ JS.startsWith i "."%string = true.

(** The candidates of Completion (section 4.4). *)
Definition CompletionCandidate (source token : Token) : Prop :=
  kind token = Assignment
  /\ identifierKind token <> Unassignable
  /\ (scope token = None \/ scope token = scope source)
  /\ (globallyQualified token \/ namespace token = namespace source).

(** An entry of the outline's top level for [token]. *)
Definition topLevel (token : Token) : Prop :=
  kind token = Assignment /\ scope token = None.

(** [child] is an Assignment token whose scope is the lambda that
    [parent] opens. *)
Definition childOf (parent child : Token) : Prop :=
  kind child = Assignment
  /\ exists l, scope child = Some l /\ lambda parent = Some l.

(** The outline entry of a nested token. *)
Definition childEntry (child : Token) (d : DocumentSymbol) : Prop :=
  symbolName d = image child
  /\ symbolKind d = (match identifierKind child with
                     | Argument => SymbolKind.Array
                     | _ => SymbolKind.Variable_
                     end)
  /\ symbolRange d = QLangServer.rangeFromToken child
  /\ symbolSelectionRange d = QLangServer.rangeFromToken child
  /\ symbolChildren d = [].

(** The outline entry of a top-level token: its kind, and its children,
    which are the entries of the tokens nested in its lambda. *)
Definition topEntry (tokens : list Token) (token : Token) (d : DocumentSymbol)
  : Prop :=
  symbolName d = QLangServer.getLabel token None
  /\ symbolKind d = (match lambda token with
                     | Some _ => SymbolKind.Object
                     | None => SymbolKind.Variable_
                     end)
  /\ symbolRange d = QLangServer.rangeFromToken token
  /\ symbolSelectionRange d = QLangServer.rangeFromToken token
  /\ exists nested,
       Selected (childOf token) tokens nested
       /\ Forall2 childEntry nested (symbolChildren d).

(** What [declaredAfterUse] flags, whatever the parser's helpers are. *)
Definition flagged
  (inParam assigned assignable : Token -> bool)
  (inLambda : Token -> option ref) (identifier : Token -> option string)
  (ordered : Token -> Token -> bool) (tokens : list Token) (x : Token) : Prop :=
  inParam x = false /\ assigned x = true /\ assignable x = true
  /\ exists y,
       In y tokens
       /\ assigned y = false /\ assignable y = true
       /\ inLambda y = inLambda x
       /\ identifier y = identifier x
       /\ ordered y x = true.

(** [y] reads [x]'s name: it is assignable and not assigned, and has
    [x]'s enclosing lambda and identifier (the test of the [find] in
    [unusedParam] and [unusedVar]). *)
Definition readOf
  (assigned assignable : Token -> bool)
  (inLambda : Token -> option ref) (identifier : Token -> option string)
  (x y : Token) : Prop :=
  assigned y = false /\ assignable y = true
  /\ inLambda y = inLambda x
  /\ identifier y = identifier x.

End Props.

(* ================================================================= *)
(** * Token sequences used as examples *)

Module Examples.
Import Parser Protocol.

(** The lambda at address 0 declares its parameters; the one at address 1
    is nullary. *)
Definition heap0 : Heap := fun r => {| nullary := Nat.eqb r 1 |}.

(** A one-character token at [(ln, col)] that carries the identifier
    [name]. *)
Definition tok
  (ty : TokenType) (name : string) (ln col : Z) (k : TokenKind)
  (ik : IdentifierKind) (sc lam : option ref) : Token :=
  {| image := name; tokenType := ty;
     startLine := Some ln; startColumn := Some col;
     endLine := Some ln; endColumn := Some col;
     kind := k; identifier := Some name; identifierKind := ik;
     namespace := None; scope := sc; lambda := lam; error := None |}.

(** A token without an identifier (an operator or a literal). *)
Definition plain (ty : TokenType) (img : string) (ln col : Z) (sc : option ref)
  : Token :=
  {| image := img; tokenType := ty;
     startLine := Some ln; startColumn := Some col;
     endLine := Some ln; endColumn := Some col;
     kind := Parser.Reference; identifier := None;
     identifierKind := Unassignable;
     namespace := None; scope := sc; lambda := None; error := None |}.

(** A local [a] bound in the lambda at address 0, and a token of the same
    scope and identifier that is not assignable. *)
Definition local_a : Token :=
  tok Identifier "a" 1 2 Assignment Local (Some 0%nat) None.

Definition reserved_a : Token :=
  tok Identifier "a" 1 6 Parser.Reference Unassignable (Some 0%nat) None.

Definition use_a : Token :=
  tok Identifier "a" 1 9 Parser.Reference Local (Some 0%nat) None.

Definition scope_tokens : list Token := [local_a; reserved_a; use_a].

(** The tokens of [f:{[a] b:a}]: [f] opens the lambda at address 0. *)
Definition fn_f : Token :=
  tok Identifier "f" 1 1 Assignment Global None (Some 0%nat).

Definition param_a : Token :=
  tok Identifier "a" 1 5 Assignment Argument (Some 0%nat) None.

Definition local_b : Token :=
  tok Identifier "b" 1 8 Assignment Local (Some 0%nat) None.

Definition arg_a : Token :=
  tok Identifier "a" 1 10 Parser.Reference Argument (Some 0%nat) None.

Definition lambda_tokens : list Token :=
  [fn_f; plain Colon ":" 1 2 None; plain LCurly "{" 1 3 None;
   plain Bracket "[" 1 4 (Some 0%nat); param_a;
   plain Bracket "]" 1 6 (Some 0%nat); local_b;
   plain Colon ":" 1 9 (Some 0%nat); arg_a; plain RCurly "}" 1 11 None].

(** The tokens of [a:1]. *)
Definition global_a : Token :=
  tok Identifier "a" 1 1 Assignment Global None None.

Definition literal_1 : Token := plain NumberLiteral "1" 1 3 None.

Definition assign_tokens : list Token :=
  [global_a; plain Colon ":" 1 2 None; literal_1].

End Examples.

(* ================================================================= *)
(** * Requests on the documents the server holds *)

Module Requests.
Import Parser Protocol.

(** [this.documents.get(uri)] gives the document, or [undefined] for a
    document the server does not hold; [parser] is the parser's [parse],
    applied to the document's text.  [heap] holds the lambda tokens of the
    parsed sequence. *)
Section Documents.
Variable heap : Heap.
Variable parser : string -> list Token.
Variable documents : string -> option string.

(** [QLangServer.parse] (lines 217-223). *)
Definition parse (uri : string) : list Token :=
  match documents uri with
  | None => []
  | Some text => parser text
  end.

(** The five handlers as the connection calls them, on
    [{ textDocument, position, newName }]. *)
Definition documentSymbolRequest (uri : string) : list DocumentSymbol :=
  QLangServer.onDocumentSymbol (parse uri).

Definition referencesRequest (uri : string) (position : Position)
  : list Location :=
  QLangServer.onReferences heap (parse uri) uri position.

Definition definitionRequest (uri : string) (position : Position)
  : list Location :=
  QLangServer.onDefinition heap (parse uri) uri position.

Definition renameRequest (uri : string) (position : Position) (newName : string)
  : option WorkspaceEdit :=
  QLangServer.onRenameRequest heap (parse uri) uri position newName.

Definition completionRequest (uri : string) (position : Position)
  : list CompletionItem :=
  QLangServer.onCompletion heap (parse uri) position.

End Documents.
End Requests.

(* ================================================================= *)
(** * More JavaScript string primitives *)

Module JSString.

(** [s.includes(sub)]. *)
Fixpoint includes (sub s : string) : bool :=
  if String.prefix sub s then true
  else match s with
       | EmptyString => false
       | String _ r => includes sub r
       end.

(** [s.split(sep)] for a separator that is not empty: [skip] counts the
    characters of a separator just found that are still to be passed, and
    [cur] is the piece read so far. *)
Fixpoint splitFrom (sep s : string) (skip : nat) (cur : string) : list string :=
  match s with
  | EmptyString => [cur]
  | String c r =>
      match skip with
      | S k => splitFrom sep r k cur
      | O =>
          if String.prefix sep s
          then cur :: splitFrom sep r (String.length sep - 1) EmptyString
          else splitFrom sep r 0 (cur ++ String c EmptyString)%string
      end
  end.

Definition split (sep s : string) : list string := splitFrom sep s 0 EmptyString.

(** [s.repeat(n)]. *)
Fixpoint repeat (s : string) (n : nat) : string :=
  match n with
  | O => EmptyString
  | S k => (s ++ repeat s k)%string
  end.

(** [parts.join("")]. *)
Fixpoint join (parts : list string) : string :=
  match parts with
  | [] => EmptyString
  | p :: rest => (p ++ join rest)%string
  end.

(** The last character of [s]: [s.slice(-1)], empty for the empty string. *)
Fixpoint lastChar (s : string) : string :=
  match s with
  | EmptyString => EmptyString
  | String c EmptyString => String c EmptyString
  | String _ r => lastChar r
  end.

(** [s.slice(0, -1)]: [s] without its last character. *)
Fixpoint dropLast (s : string) : string :=
  match s with
  | EmptyString => EmptyString
  | String _ EmptyString => EmptyString
  | String c r => String c (dropLast r)
  end.

(** [f] applied to the elements of [l] with their indices, from [j] on:
    [l.map((value, j) => ...)]. *)
Fixpoint mapi {A B : Type} (f : nat -> A -> B) (j : nat) (l : list A) : list B :=
  match l with
  | [] => []
  | x :: r => f j x :: mapi f (S j) r
  end.

End JSString.

(* ================================================================= *)
(** * [src/utils/queryUtils.ts] *)

Module QueryUtils.
Import JSString.

Definition sanitizeQuery (query : string) : string :=
  if String.prefix "`" query then (query ++ " ")%string
  else if String.eqb (lastChar query) ";" then dropLast query
  else query.

Definition checkIfIsPropVal (columns : list string) : bool :=
  (List.length columns =? 2)%nat
  && existsb (String.eqb "Property") columns
  && existsb (String.eqb "Value") columns.

Definition headerSeparator : string := "#$#;header;#$#".

Definition cellSeparator : string := "#$#;#$#".

(** The table [convertRowsToConsole] lays out: the header's cells, when
    the first row is a header, and the cells of the other rows. *)
Definition vectorOf (rows : list string) : list (list string) :=
  match rows with
  | [] => []
  | first :: rest =>
      if includes headerSeparator first
      then split headerSeparator first :: map (split cellSeparator) rest
      else map (split cellSeparator) rows
  end.

(** [vector.reduce((max, row) => Math.max(max, row[j].length), 0)] and
    its callback; a row without a cell [j] makes [row[j].length] throw,
    which is [None]. *)
Definition maxStep (j : nat) (max : option nat) (row : list string)
  : option nat :=
  match max, nth_error row j with
  | Some m, Some value => Some (Nat.max m (String.length value))
  | _, _ => None
  end.

Definition maxLength (vector : list (list string)) (j : nat) : option nat :=
  fold_left (maxStep j) vector (Some 0%nat).

(** The reduce over the cells of [vector[0]] that collects
    [maxLength + 2] for every column [j], from column [j] on. *)
Fixpoint countersFrom (vector : list (list string)) (j n : nat)
  : option (list nat) :=
  match n with
  | O => Some []
  | S k =>
      match maxLength vector j with
      | None => None
      | Some m =>
          match countersFrom vector (S j) k with
          | None => None
          | Some rest => Some (m + 2 :: rest)%nat
          end
      end
  end.

Definition columnCounters (vector : list (list string)) : option (list nat) :=
  countersFrom vector 0 (List.length (hd [] vector)).

(** The body of the inner [forEach]: the cell [value] of column [j]
    padded to the column's counter.  A column without a counter leaves
    [diff] not a number, and the cell as it is. *)
Definition padCell
  (haveHeader : bool) (counters : list nat) (j : nat) (value : string) : string :=
  match nth_error counters j with
  | None => value
  | Some counter =>
      let diff := (Z.of_nat counter - Z.of_nat (String.length value))%Z in
      if (diff >? 0)%Z then
        if negb haveHeader
           && negb (Z.of_nat j =? Z.of_nat (List.length counters) - 1)%Z
        then (value ++ "|"
              ++ repeat " " (Z.to_nat (if (diff >? 1)%Z then diff - 1 else diff)))
             %string
        else (value ++ repeat " " (Z.to_nat diff))%string
      else value
  end.

(** [convertRowsToConsole(rows)]: the array [rows] as the call leaves it
    (a header row is shifted out of it), and the lines returned, or [None]
    when the call throws. *)
Definition convertRowsToConsole (rows : list string)
  : list string * option (list string) :=
  match rows with
  | [] => (rows, Some [])
  | first :: rest =>
      let haveHeader := includes headerSeparator first in
      let rows' := if haveHeader then rest else rows in
      let vector := vectorOf rows in
      match columnCounters vector with
      | None => (rows', None)
      | Some counters =>
          let padded := map (mapi (padCell haveHeader counters) 0) vector in
          let result := map join padded in
          let totalCount := fold_left Nat.add counters 0%nat in
          let totalCounter := repeat "-" totalCount in
          (rows',
           Some (if haveHeader
                 then match result with
                      | [] => [totalCounter]
                      | head :: others => head :: totalCounter :: others
                      end
                 else result))
      end
  end.

(** [rows[0].includes("#$#;header;#$#")] for an array that is not empty. *)
Definition haveHeader (rows : list string) : bool :=
  match rows with
  | [] => false
  | first :: _ => includes headerSeparator first
  end.

(** Every row of the table has as many cells as its first row. *)
Definition rectangular (vector : list (list string)) : Prop :=
  forall row, In row vector -> List.length row = List.length (hd [] vector).

End QueryUtils.

(* ================================================================= *)
(** * More examples *)

Module MoreExamples.
Import Parser Protocol Examples.

(** A definition [.ns.f] and a cursor token in the namespace [.ns]. *)
Definition ns_f : Token :=
  tok Identifier ".ns.f" 1 1 Assignment Global None (Some 0%nat).

Definition ns_cursor : Token :=
  {| image := "g"; tokenType := Identifier;
     startLine := Some 2%Z; startColumn := Some 1%Z;
     endLine := Some 2%Z; endColumn := Some 1%Z;
     kind := Parser.Reference; identifier := Some ".ns.g"%string;
     identifierKind := Global; namespace := Some ".ns"%string;
     scope := None; lambda := None; error := None |}.

(** A server that holds no document, with a parser that returns the
    tokens of [a:1] for every text. *)
Definition no_documents : string -> option string := fun _ => None.

Definition constant_parser : string -> list Token := fun _ => assign_tokens.

(** A table with a header and two rows, as [convertRows] hands it over. *)
Definition table_rows : list string :=
  ["a#$#;header;#$#bc"; "1#$#;#$#2"; "333#$#;#$#4"]%string.

End MoreExamples.

(* ================================================================= *)
(** * Facts about the primitives *)

Module JSFacts.
Import JS Props.

Lemma opt_eqb_true {A : Type} (eqb : A -> A -> bool) (a b : option A) :
  (forall x y, eqb x y = true <-> x = y) ->
  opt_eqb eqb a b = true <-> a = b.
Proof.
  intros Heqb.
  destruct a as [x|], b as [y|]; simpl; try (split; congruence).
  rewrite Heqb. split; congruence.
Qed.

Lemma str_eq_true (a b : option string) : str_eq a b = true <-> a = b.
Proof. apply opt_eqb_true, String.eqb_eq. Qed.

Lemma ref_eq_true (a b : option nat) : ref_eq a b = true <-> a = b.
Proof. apply opt_eqb_true, Nat.eqb_eq. Qed.

Lemma str_eq_refl (a : option string) : str_eq a a = true.
Proof. now apply str_eq_true. Qed.

Lemma ref_eq_refl (a : option nat) : ref_eq a a = true.
Proof. now apply ref_eq_true. Qed.

Lemma truthy_true {A : Type} (a : option A) :
  truthy a = true <-> exists x, a = Some x.
Proof.
  destruct a as [x|]; simpl; split; intros H; try discriminate; eauto.
  destruct H as [x H]. discriminate.
Qed.

Lemma truthy_false {A : Type} (a : option A) : truthy a = false <-> a = None.
Proof. destruct a; simpl; split; congruence. Qed.

(** [find] is truthy exactly when some element passes the test. *)
Lemma truthy_find {A : Type} (f : A -> bool) (l : list A) :
  truthy (find f l) = true <-> exists x, In x l /\ f x = true.
Proof.
  induction l as [|a l IH]; simpl.
  - split; [discriminate | intros [x [[] _]]].
  - destruct (f a) eqn:Ha; simpl.
    + split; eauto.
    + rewrite IH. split.
      * intros [x [Hx Hf]]. eauto.
      * intros [x [[->|Hx] Hf]]; [congruence | eauto].
Qed.

Lemma num_or_nonzero (n : Z) (d : Z) : n <> 0%Z -> num_or (Some n) d = n.
Proof.
  intros Hn. unfold num_or.
  destruct (Z.eqb_spec n 0); [contradiction | reflexivity].
Qed.

(** A boolean filter selects what its test decides. *)
Lemma Selected_filter {A : Type} (P : A -> Prop) (f : A -> bool) (l : list A) :
  (forall x, In x l -> (f x = true <-> P x)) ->
  Selected P l (filter f l).
Proof.
  induction l as [|a l IH]; intros Hf; simpl.
  - constructor.
  - assert (Hl : forall x, In x l -> (f x = true <-> P x))
      by (intros x Hx; apply Hf; now right).
    destruct (f a) eqn:Ha.
    + apply Selected_keep; [apply Hf; simpl; auto | auto].
    + apply Selected_skip; [| auto].
      intros HP. apply Hf in HP; [congruence | simpl; auto].
Qed.

Lemma Selected_In {A : Type} (P : A -> Prop) (l r : list A) :
  Selected P l r -> forall x, In x r <-> In x l /\ P x.
Proof.
  induction 1 as [|a l r Ha _ IH|a l r Ha _ IH]; intros x; simpl.
  - tauto.
  - rewrite IH. split.
    + intros [->|[Hx HP]]; auto.
    + intros [[->|Hx] HP]; auto.
  - rewrite IH. split.
    + intros [Hx HP]; auto.
    + intros [[->|Hx] HP]; [contradiction | auto].
Qed.

(** What is selected is determined by the list and the property. *)
Lemma Selected_unique {A : Type} (P : A -> Prop) (l r r' : list A) :
  Selected P l r -> Selected P l r' -> r = r'.
Proof.
  intros H. revert r'.
  induction H as [|a l r Ha _ IH|a l r Ha _ IH]; intros r' H';
    inversion H'; subst; try contradiction; auto.
  f_equal. auto.
Qed.

Lemma Selected_iff {A : Type} (P Q : A -> Prop) (l r : list A) :
  (forall x, P x <-> Q x) -> Selected P l r -> Selected Q l r.
Proof.
  intros HPQ. induction 1 as [|a l r Ha _ IH|a l r Ha _ IH].
  - constructor.
  - apply Selected_keep; [now apply HPQ | assumption].
  - apply Selected_skip; [| assumption]. intros HQ. now apply HPQ in HQ.
Qed.

End JSFacts.

(* ================================================================= *)
(** * The helpers: ranges, locality, the two copies *)

Module HelperFacts.
Import Parser Protocol JS JSFacts Props.

Lemma implicitName_test (i : option string) :
  str_eq i (Some "x"%string) || str_eq i (Some "y"%string)
  || str_eq i (Some "z"%string) = true
  <-> implicitName i.
Proof.
  unfold implicitName.
  rewrite !orb_true_iff, !str_eq_true. tauto.
Qed.

(** The test [isLocal] runs over the token sequence. *)
Lemma binder_test (target token : Token) (s : ref) :
  isAssignment (kind token)
  && ref_eq (scope token) (Some s)
  && str_eq (identifier token) (identifier target) = true
  <-> kind token = Assignment
      /\ scope token = Some s
      /\ identifier token = identifier target.
Proof.
  rewrite !andb_true_iff, ref_eq_true, str_eq_true.
  destruct (kind token); simpl; intuition congruence.
Qed.

Lemma isLocal_LocalIn (heap : Heap) (tokens : list Token) (target : Token) :
  QLangServer.isLocal heap tokens target = true <-> LocalIn heap tokens target.
Proof.
  unfold QLangServer.isLocal, LocalIn.
  destruct (scope target) as [s|] eqn:Hs.
  - destruct (nullary (heap s)) eqn:Hn; simpl.
    + destruct (str_eq (identifier target) (Some "x"%string)
                || str_eq (identifier target) (Some "y"%string)
                || str_eq (identifier target) (Some "z"%string)) eqn:Hi.
      * split; [intros _ | reflexivity].
        exists s. split; [reflexivity|]. left.
        split; [now apply implicitName_test | assumption].
      * rewrite truthy_find. split.
        -- intros [token [Hin Ht]]. exists s. split; [reflexivity|]. right.
           exists token. split; [assumption|].
           now apply (binder_test target token s).
        -- intros [s' [Hs' [[Himp _]|[token [Hin Ht]]]]].
           ++ apply implicitName_test in Himp. congruence.
           ++ injection Hs' as <-. exists token. split; [assumption|].
              now apply (binder_test target token s).
    + rewrite truthy_find. split.
      * intros [token [Hin Ht]]. exists s. split; [reflexivity|]. right.
        exists token. split; [assumption|].
        now apply (binder_test target token s).
      * intros [s' [Hs' [[_ Hn']|[token [Hin Ht]]]]].
        -- injection Hs' as <-. congruence.
        -- injection Hs' as <-. exists token. split; [assumption|].
           now apply (binder_test target token s).
  - split; [discriminate|]. intros [s [Hs' _]]. discriminate.
Qed.

(** C2.  [isLocal(tokens, target)] is true exactly when the target's
    scope is set and either the target is one of the implicit names [x],
    [y], [z] in a nullary lambda, or some Assignment token of the sequence
    has the target's scope reference and identifier; it is false in every
    other case.  This holds for the server's private copy and for the
    exported one. *)
Theorem isLocal_spec (heap : Heap) (tokens : list Token) (target : Token) :
  (QLangServer.isLocal heap tokens target = true <-> LocalIn heap tokens target)
  /\ (QLangServer.isLocal heap tokens target = false
      <-> ~ LocalIn heap tokens target)
  /\ (Util.isLocal heap tokens target = true <-> LocalIn heap tokens target)
  /\ (Util.isLocal heap tokens target = false <-> ~ LocalIn heap tokens target).
Proof.
  change (Util.isLocal heap tokens target)
    with (QLangServer.isLocal heap tokens target).
  pose proof (isLocal_LocalIn heap tokens target) as H.
  assert (Hf : QLangServer.isLocal heap tokens target = false
               <-> ~ LocalIn heap tokens target).
  { rewrite <- H. destruct (QLangServer.isLocal heap tokens target);
      split; congruence. }
  tauto.
Qed.

Lemma rangeFromToken_one_based (token : Token) (sl sc el ec : Z) :
  startLine token = Some sl -> startColumn token = Some sc ->
  endLine token = Some el -> endColumn token = Some ec ->
  (1 <= sl)%Z -> (1 <= sc)%Z -> (1 <= el)%Z -> (1 <= ec)%Z ->
  QLangServer.rangeFromToken token
  = {| start := {| line := sl - 1; character := sc - 1 |};
       end_ := {| line := el - 1; character := ec |} |}.
Proof.
  intros Hsl Hsc Hel Hec ? ? ? ?.
  unfold QLangServer.rangeFromToken, Range_create.
  rewrite Hsl, Hsc, Hel, Hec.
  rewrite !num_or_nonzero by lia. reflexivity.
Qed.

(** C3.  For a token whose span fields are 1-based, the range of every
    query result starts at [(startLine - 1, startColumn - 1)] and ends at
    [(endLine - 1, endColumn)]: the end column is the one coordinate that
    is not decremented.  This holds for the server's private copy and for
    the exported one. *)
Theorem rangeFromToken_spec (token : Token) (sl sc el ec : Z) :
  startLine token = Some sl -> startColumn token = Some sc ->
  endLine token = Some el -> endColumn token = Some ec ->
  (1 <= sl)%Z -> (1 <= sc)%Z -> (1 <= el)%Z -> (1 <= ec)%Z ->
  let r := {| start := {| line := sl - 1; character := sc - 1 |};
              end_ := {| line := el - 1; character := ec |} |} in
  QLangServer.rangeFromToken token = r /\ Util.rangeFromToken token = r.
Proof.
  intros Hsl Hsc Hel Hec ? ? ? ? r.
  change (Util.rangeFromToken token) with (QLangServer.rangeFromToken token).
  split; now apply rangeFromToken_one_based.
Qed.

(** C10.  The private helpers of [qLangServer.ts] and the exported
    functions of [util/index.ts] with the same names return the same
    result on every input. *)
Theorem private_helpers_agree_with_util :
  (forall token, QLangServer.rangeFromToken token = Util.rangeFromToken token)
  /\ (forall heap tokens target,
         QLangServer.isLocal heap tokens target = Util.isLocal heap tokens target)
  /\ (forall tokens position,
         QLangServer.positionToToken tokens position
         = Util.positionToToken tokens position)
  /\ (forall token source,
         QLangServer.getLabel token source = Util.getLabel token source).
Proof.
  split; [|split; [|split]].
  - intros token. unfold QLangServer.rangeFromToken, Util.rangeFromToken.
    reflexivity.
  - intros heap tokens target.
    unfold QLangServer.isLocal, Util.isLocal.
    destruct (scope target); reflexivity.
  - intros tokens position.
    unfold QLangServer.positionToToken, Util.positionToToken.
    unfold QLangServer.rangeFromToken, Util.rangeFromToken. reflexivity.
  - intros token source.
    unfold QLangServer.getLabel, Util.getLabel.
    destruct source as [src|]; [destruct (namespace src)|]; reflexivity.
Qed.

End HelperFacts.

(* ================================================================= *)
(** * The matching algorithm and the handlers *)

Module ServerFacts.
Import Parser Protocol JS JSFacts Props HelperFacts.
Import QLangServer.

Lemma isAssignment_true (k : TokenKind) : isAssignment k = true <-> k = Assignment.
Proof. destruct k; simpl; split; congruence. Qed.

Lemma isAssignment_false (k : TokenKind) :
  isAssignment k = false <-> k = Parser.Reference.
Proof. destruct k; simpl; split; congruence. Qed.

Lemma assignable_true (k : IdentifierKind) :
  negb (isUnassignable k) = true <-> k <> Unassignable.
Proof. destruct k; simpl; split; congruence. Qed.

Lemma isUnassignable_false (k : IdentifierKind) :
  isUnassignable k = false <-> k <> Unassignable.
Proof. destruct k; simpl; split; congruence. Qed.

Lemma isArgument_false (k : IdentifierKind) :
  negb (isArgument k) = true <-> k <> Argument.
Proof. destruct k; simpl; split; congruence. Qed.

Lemma tokenType_eqb_true (a b : TokenType) : tokenType_eqb a b = true <-> a = b.
Proof. destruct a, b; simpl; split; congruence. Qed.

Lemma Forall2_map_r {A B : Type} (R : A -> B -> Prop) (f : A -> B) (l : list A) :
  (forall x, In x l -> R x (f x)) -> Forall2 R l (map f l).
Proof.
  induction l as [|a l IH]; intros H; simpl; constructor.
  - apply H. now left.
  - apply IH. intros x Hx. apply H. now right.
Qed.

(** ** What [FirstOccurrences] says of its result *)

Lemma FirstOccurrences_sound (P : Token -> Prop) seen l r :
  FirstOccurrences P seen l r ->
  forall x, In x r -> In x l /\ P x /\ ~ In (identifier x) seen.
Proof.
  induction 1 as [seen|seen t l r HP Hnew _ IH|seen t l r HP Hdup _ IH
                 |seen t l r HP _ IH]; intros x Hx; simpl in *.
  - contradiction.
  - destruct Hx as [<-|Hx]; [auto|].
    destruct (IH x Hx) as [Hl [HPx Hs]]. simpl in Hs. tauto.
  - destruct (IH x Hx) as [Hl [HPx Hs]]. tauto.
  - destruct (IH x Hx) as [Hl [HPx Hs]]. tauto.
Qed.

(** No two tokens of the result share an identifier. *)
Lemma FirstOccurrences_NoDup (P : Token -> Prop) seen l r :
  FirstOccurrences P seen l r -> NoDup (map identifier r).
Proof.
  induction 1 as [seen|seen t l r HP Hnew HF IH|seen t l r HP Hdup _ IH
                 |seen t l r HP _ IH]; simpl; auto.
  - constructor.
  - constructor; [|assumption].
    intros Hin. apply in_map_iff in Hin. destruct Hin as [y [Hy Hin]].
    apply (FirstOccurrences_sound HF) in Hin.
    destruct Hin as [_ [_ Hs]]. apply Hs. left. congruence.
Qed.

(** The identifier of every candidate is met before or is in the result. *)
Lemma FirstOccurrences_complete (P : Token -> Prop) seen l r :
  FirstOccurrences P seen l r ->
  forall x, In x l -> P x ->
    In (identifier x) seen \/ In (identifier x) (map identifier r).
Proof.
  induction 1 as [seen|seen t l r HP Hnew _ IH|seen t l r HP Hdup _ IH
                 |seen t l r HP _ IH]; intros x Hx HPx; simpl in *.
  - contradiction.
  - destruct Hx as [<-|Hx]; [auto|].
    destruct (IH x Hx HPx) as [[Hs|Hs]|Hs]; auto.
  - destruct Hx as [<-|Hx]; auto.
  - destruct Hx as [<-|Hx]; [contradiction | auto].
Qed.

(** The candidate that stands first among those of its identifier is in
    the result. *)
Lemma FirstOccurrences_first (P : Token -> Prop) seen l1 x l2 r :
  FirstOccurrences P seen (l1 ++ x :: l2) r ->
  P x -> ~ In (identifier x) seen ->
  (forall y, In y l1 -> P y -> identifier y <> identifier x) ->
  In x r.
Proof.
  revert seen r. induction l1 as [|a l1 IH]; intros seen r HF HPx Hs Hl1;
    simpl in HF; inversion HF; subst; try contradiction.
  - now left.
  - right. apply (IH (identifier a :: seen)); auto.
    + simpl. intros [Heq|Hin]; [|contradiction].
      apply (Hl1 a); simpl; auto.
    + intros y Hy. apply Hl1. now right.
  - apply (IH seen); auto. intros y Hy. apply Hl1. now right.
  - apply (IH seen); auto. intros y Hy. apply Hl1. now right.
Qed.

(** The result is determined by the sequence. *)
Lemma FirstOccurrences_unique (P : Token -> Prop) seen l r r' :
  FirstOccurrences P seen l r -> FirstOccurrences P seen l r' -> r = r'.
Proof.
  intros H. revert r'.
  induction H as [seen|seen t l r HP Hnew _ IH|seen t l r HP Hdup _ IH
                 |seen t l r HP _ IH]; intros r' H';
    inversion H'; subst; try contradiction; auto.
  f_equal. auto.
Qed.

Section Matching.
Variable heap : Heap.

(** ** Reference, Rename and Definition *)

Lemma reference_filter_local (tokens : list Token) (source token : Token) :
  isLocal heap tokens source = true ->
  tokenType_eqb (tokenType token) Identifier
  && negb (isUnassignable (identifierKind token))
  && str_eq (identifier token) (identifier source)
  && ref_eq (scope token) (scope source) = true
  <-> ReferenceCandidate heap tokens source token.
Proof.
  intros Hloc. unfold ReferenceCandidate, Matches. rewrite Hloc.
  rewrite !andb_true_iff, tokenType_eqb_true, assignable_true,
    str_eq_true, ref_eq_true.
  tauto.
Qed.

Lemma reference_filter_global (tokens : list Token) (source token : Token) :
  isLocal heap tokens source = false ->
  tokenType_eqb (tokenType token) Identifier
  && negb (isUnassignable (identifierKind token))
  && str_eq (identifier token) (identifier source)
  && negb (isLocal heap tokens token) = true
  <-> ReferenceCandidate heap tokens source token.
Proof.
  intros Hloc. unfold ReferenceCandidate, Matches. rewrite Hloc.
  rewrite !andb_true_iff, tokenType_eqb_true, assignable_true,
    str_eq_true, negb_true_iff.
  tauto.
Qed.

Lemma definition_filter_local (tokens : list Token) (source token : Token) :
  isLocal heap tokens source = true ->
  isAssignment (kind token)
  && negb (isUnassignable (identifierKind token))
  && str_eq (identifier token) (identifier source)
  && ref_eq (scope token) (scope source) = true
  <-> DefinitionCandidate heap tokens source token.
Proof.
  intros Hloc. unfold DefinitionCandidate, Matches. rewrite Hloc.
  rewrite !andb_true_iff, isAssignment_true, assignable_true,
    str_eq_true, ref_eq_true.
  tauto.
Qed.

Lemma definition_filter_global (tokens : list Token) (source token : Token) :
  isLocal heap tokens source = false ->
  isAssignment (kind token)
  && negb (isUnassignable (identifierKind token))
  && str_eq (identifier token) (identifier source)
  && negb (isLocal heap tokens token) = true
  <-> DefinitionCandidate heap tokens source token.
Proof.
  intros Hloc. unfold DefinitionCandidate, Matches. rewrite Hloc.
  rewrite !andb_true_iff, isAssignment_true, assignable_true,
    str_eq_true, negb_true_iff.
  tauto.
Qed.

(** C1 (amended).  For a source token that is not Unassignable,
    Reference and Rename return exactly the tokens of the sequence whose
    token type is Identifier, whose identifier kind is not Unassignable
    and that match the source: the source's identifier and, for a Local
    source, the source's scope reference, for any other source, not Local
    within their own scope.  Definition returns exactly the Assignment
    tokens whose identifier kind is not Unassignable and that match the
    source in the same way. *)
Theorem findIdentifiers_matching (tokens : list Token) (source : Token) :
  identifierKind source <> Unassignable ->
  Selected (ReferenceCandidate heap tokens source) tokens
           (findIdentifiers heap Reference tokens (Some source))
  /\ findIdentifiers heap Rename tokens (Some source)
     = findIdentifiers heap Reference tokens (Some source)
  /\ Selected (DefinitionCandidate heap tokens source) tokens
              (findIdentifiers heap Definition_ tokens (Some source)).
Proof.
  intros Hsrc. apply isUnassignable_false in Hsrc.
  unfold findIdentifiers. rewrite Hsrc.
  destruct (isLocal heap tokens source) eqn:Hloc.
  - split; [|split; [reflexivity|]]; apply Selected_filter; intros token _.
    + now apply reference_filter_local.
    + now apply definition_filter_local.
  - split; [|split; [reflexivity|]]; apply Selected_filter; intros token _.
    + now apply reference_filter_global.
    + now apply definition_filter_global.
Qed.

(** ** Completion *)

Lemma dotted_spec (token : Token) : dotted token = true <-> globallyQualified token.
Proof.
  unfold dotted, globallyQualified.
  destruct (identifier token) as [i|]; split.
  - intros H. eauto.
  - intros [j [Hj H]]. now injection Hj as ->.
  - discriminate.
  - intros [j [Hj _]]. discriminate.
Qed.

Lemma completionFilter_spec (source token : Token) :
  completionFilter source token = true <-> CompletionCandidate source token.
Proof.
  unfold completionFilter, CompletionCandidate.
  rewrite !andb_true_iff, !orb_true_iff, isAssignment_true, assignable_true,
    dotted_spec, str_eq_true, ref_eq_true, negb_true_iff, truthy_false.
  tauto.
Qed.

Lemma seen_test (completions : list Token) (token : Token) :
  truthy (find (fun item => str_eq (identifier item) (identifier token))
               completions) = true
  <-> In (identifier token) (map identifier completions).
Proof.
  rewrite truthy_find, in_map_iff. split.
  - intros [item [Hin Heq]]. apply str_eq_true in Heq. eauto.
  - intros [item [Heq Hin]]. exists item. split; [assumption|].
    now apply str_eq_true.
Qed.

(** The [forEach] loop appends the first occurrences to what it holds. *)
Lemma pushUnique_first (P : Token -> Prop) (f : Token -> bool) :
  (forall t, f t = true <-> P t) ->
  forall (l completions : list Token) (seen : list (option string)),
    (forall i, In i seen <-> In i (map identifier completions)) ->
    exists r,
      fold_left pushUnique (filter f l) completions = completions ++ r
      /\ FirstOccurrences P seen l r.
Proof.
  intros Hf. induction l as [|t l IH]; intros completions seen Hseen; simpl.
  - exists []. split; [now rewrite app_nil_r | constructor].
  - destruct (f t) eqn:Ht; simpl.
    + unfold pushUnique at 2.
      destruct (truthy (find (fun item => str_eq (identifier item) (identifier t))
                             completions)) eqn:Hfind; simpl.
      * destruct (IH completions seen Hseen) as [r [Hr HF]].
        exists r. split; [assumption|].
        apply First_dup; [now apply Hf | | assumption].
        apply Hseen. now apply seen_test.
      * destruct (IH (completions ++ [t]) (identifier t :: seen)) as [r [Hr HF]].
        { intros i. rewrite map_app, in_app_iff. simpl.
          rewrite (Hseen i). tauto. }
        exists (t :: r). split.
        -- rewrite Hr, <- app_assoc. reflexivity.
        -- apply First_keep; [now apply Hf | | assumption].
           intros Hin. apply Hseen, seen_test in Hin. congruence.
    + destruct (IH completions seen Hseen) as [r [Hr HF]].
      exists r. split; [assumption|].
      apply First_skip; [| assumption].
      intros HP. apply Hf in HP. congruence.
Qed.

(** C5 (amended).  For a cursor token that is not Unassignable,
    Completion returns exactly the Assignment tokens whose identifier kind
    is not Unassignable, whose scope is global or the cursor token's scope
    reference and whose identifier is globally qualified or whose
    namespace is the cursor token's, without the tokens whose identifier
    an earlier such token has, in sequence order; an item's kind is
    Function when its token opens a lambda and Variable otherwise. *)
Theorem completion_first_occurrences
  (tokens : list Token) (position : Position) (source : Token) :
  positionToToken tokens position = Some source ->
  identifierKind source <> Unassignable ->
  FirstOccurrences (CompletionCandidate source) [] tokens
                   (findIdentifiers heap Completion tokens (Some source))
  /\ Forall2 (fun token item =>
                itemKind item = match lambda token with
                                | Some _ => CompletionItemKind.Function
                                | None => CompletionItemKind.Variable_
                                end)
             (findIdentifiers heap Completion tokens (Some source))
             (onCompletion heap tokens position).
Proof.
  intros Hpos Hsrc. split.
  - apply isUnassignable_false in Hsrc.
    unfold findIdentifiers. rewrite Hsrc.
    destruct (@pushUnique_first _ _ (completionFilter_spec source) tokens [] [])
      as [r [Hr HF]].
    + intros i. simpl. tauto.
    + rewrite Hr. exact HF.
  - unfold onCompletion. rewrite Hpos.
    apply Forall2_map_r. intros token _. simpl.
    destruct (lambda token); reflexivity.
Qed.

(** ** Unassignable tokens *)

Lemma pushUnique_incl (l completions : list Token) (x : Token) :
  In x (fold_left pushUnique l completions) -> In x completions \/ In x l.
Proof.
  revert completions. induction l as [|t l IH]; intros completions; simpl.
  - auto.
  - intros H. apply IH in H. destruct H as [H|H]; [|auto].
    unfold pushUnique in H.
    destruct (negb _) in H; [|auto].
    apply in_app_iff in H. simpl in H. tauto.
Qed.

Lemma Forall_filter_test {A : Type} (P : A -> Prop) (f : A -> bool) (l : list A) :
  (forall x, f x = true -> P x) -> Forall P (filter f l).
Proof.
  intros H. apply Forall_forall. intros x Hx.
  apply filter_In in Hx. now apply H.
Qed.

(** C9.  Whatever the kind of query, the token sequence and the source
    token, no token of the result has identifier kind Unassignable. *)
Theorem findIdentifiers_assignable
  (kind_ : FindKind) (tokens : list Token) (source : option Token) :
  Forall (fun token => identifierKind token <> Unassignable)
         (findIdentifiers heap kind_ tokens source).
Proof.
  unfold findIdentifiers.
  destruct source as [source|]; [|constructor].
  destruct (isUnassignable (identifierKind source)); [constructor|].
  destruct kind_.
  - destruct (isLocal heap tokens source); apply Forall_filter_test;
      intros x Hx; rewrite !andb_true_iff in Hx;
      now apply assignable_true.
  - destruct (isLocal heap tokens source); apply Forall_filter_test;
      intros x Hx; rewrite !andb_true_iff in Hx;
      now apply assignable_true.
  - destruct (isLocal heap tokens source); apply Forall_filter_test;
      intros x Hx; rewrite !andb_true_iff in Hx;
      now apply assignable_true.
  - apply Forall_forall. intros x Hx.
    apply pushUnique_incl in Hx. destruct Hx as [[]|Hx].
    apply filter_In in Hx. destruct Hx as [_ Hx].
    apply completionFilter_spec in Hx. apply Hx.
Qed.

(** ** The outline *)

Lemma topLevel_test (token : Token) :
  isAssignment (kind token) && negb (truthy (scope token)) = true
  <-> topLevel token.
Proof.
  unfold topLevel.
  rewrite andb_true_iff, isAssignment_true, negb_true_iff, truthy_false.
  tauto.
Qed.

Lemma childOf_test (parent child : Token) :
  truthy (scope child)
  && ref_eq (scope child) (lambda parent)
  && isAssignment (kind child) = true
  <-> childOf parent child.
Proof.
  unfold childOf.
  rewrite !andb_true_iff, truthy_true, ref_eq_true, isAssignment_true.
  split.
  - intros [[[l Hl] Heq] Hk]. split; [assumption|].
    exists l. split; congruence.
  - intros [Hk [l [Hs Hl]]]. repeat split; eauto. congruence.
Qed.

(** C4 (amended).  The outline has exactly one top-level entry per
    Assignment token with no scope, in sequence order; the entry's kind is
    Object when the token opens a lambda and Variable otherwise; its
    children are exactly the entries of the Assignment tokens whose scope
    reference is the lambda the token opens, of kind Array when the
    identifier kind is Argument and Variable otherwise. *)
Theorem onDocumentSymbol_outline (tokens : list Token) :
  exists top,
    Selected topLevel tokens top
    /\ Forall2 (topEntry tokens) top (onDocumentSymbol tokens).
Proof.
  exists (filter (fun token =>
                    isAssignment (kind token) && negb (truthy (scope token)))
                 tokens).
  split.
  - apply Selected_filter. intros token _. apply topLevel_test.
  - unfold onDocumentSymbol. apply Forall2_map_r. intros token _.
    unfold topEntry; simpl.
    split; [reflexivity|].
    split; [destruct (lambda token); reflexivity|].
    split; [reflexivity|]. split; [reflexivity|].
    exists (filter (fun child =>
                      truthy (scope child)
                      && ref_eq (scope child) (lambda token)
                      && isAssignment (kind child))
                   tokens).
    split.
    + apply Selected_filter. intros child _. apply childOf_test.
    + apply Forall2_map_r. intros child _.
      unfold childEntry; simpl.
      split; [reflexivity|].
      split; [destruct (identifierKind child); reflexivity|].
      repeat split; reflexivity.
Qed.

(** ** Positions without a source token *)

Lemma span_test (token : Token) (position : Position) :
  (let r := rangeFromToken token in
   (line (start r) <=? line position)%Z
   && (line (end_ r) >=? line position)%Z
   && (character (start r) <=? character position)%Z
   && (character (end_ r) >=? character position)%Z) = true
  <-> spanContains token position.
Proof.
  unfold spanContains. cbv zeta.
  rewrite !andb_true_iff, !Z.leb_le, !Z.geb_le. tauto.
Qed.

Lemma positionToToken_none (tokens : list Token) (position : Position) :
  (forall token, In token tokens -> ~ spanContains token position) ->
  positionToToken tokens position = None.
Proof.
  intros H. apply truthy_false.
  destruct (truthy (positionToToken tokens position)) eqn:Hfind; [|reflexivity].
  unfold positionToToken in Hfind. apply truthy_find in Hfind.
  destruct Hfind as [token [Hin Ht]].
  apply span_test in Ht. now apply H in Ht.
Qed.

Lemma findIdentifiers_no_source (kind_ : FindKind) (tokens : list Token)
  (source : option Token) :
  source = None
  \/ (exists token, source = Some token /\ identifierKind token = Unassignable) ->
  findIdentifiers heap kind_ tokens source = [].
Proof.
  intros [->|[token [-> Hk]]]; unfold findIdentifiers; [reflexivity|].
  now rewrite Hk.
Qed.

(** C8.  When no token's span contains the position, or the token found
    there has identifier kind Unassignable, Reference, Definition and
    Completion return the empty list and Rename returns no edit; the
    handlers are total functions, so none of them fails. *)
Theorem queries_without_source
  (tokens : list Token) (uri : string) (position : Position) (newName : string) :
  (forall token, In token tokens -> ~ spanContains token position)
  \/ (exists token,
         positionToToken tokens position = Some token
         /\ identifierKind token = Unassignable) ->
  onReferences heap tokens uri position = []
  /\ onDefinition heap tokens uri position = []
  /\ onCompletion heap tokens position = []
  /\ onRenameRequest heap tokens uri position newName = None.
Proof.
  intros H.
  assert (Hsrc : positionToToken tokens position = None
                 \/ exists token,
                      positionToToken tokens position = Some token
                      /\ identifierKind token = Unassignable).
  { destruct H as [H|H]; [left; now apply positionToToken_none | now right]. }
  unfold onReferences, onDefinition, onCompletion, onRenameRequest. cbv zeta.
  rewrite !(findIdentifiers_no_source _ tokens Hsrc). simpl. auto.
Qed.

(** ** Further properties of the handlers *)

(** X1.  No two tokens that Completion returns share an identifier. *)
Theorem completion_distinct_identifiers
  (tokens : list Token) (source : option Token) :
  NoDup (map identifier (findIdentifiers heap Completion tokens source)).
Proof.
  unfold findIdentifiers.
  destruct source as [source|]; [|constructor].
  destruct (isUnassignable (identifierKind source)); [constructor|].
  destruct (@pushUnique_first _ _ (completionFilter_spec source) tokens [] [])
    as [r [Hr HF]].
  - intros i. simpl. tauto.
  - rewrite Hr. simpl. now apply FirstOccurrences_NoDup in HF.
Qed.

(** X2.  Rename on a Local source only edits tokens that share the
    source's scope reference and identifier. *)
Theorem rename_local_stays_in_scope (tokens : list Token) (source : Token) :
  isLocal heap tokens source = true ->
  Forall (fun token =>
            scope token = scope source
            /\ identifier token = identifier source)
         (findIdentifiers heap Rename tokens (Some source)).
Proof.
  intros Hloc. unfold findIdentifiers.
  destruct (isUnassignable (identifierKind source)); [constructor|].
  rewrite Hloc. apply Forall_filter_test. intros token Ht.
  rewrite !andb_true_iff, str_eq_true, ref_eq_true in Ht. tauto.
Qed.

(** Rename returns no edit exactly when the matching algorithm
    finds no token. *)
Theorem rename_null_iff_no_match
  (tokens : list Token) (uri : string) (position : Position) (newName : string) :
  onRenameRequest heap tokens uri position newName = None
  <-> findIdentifiers heap Rename tokens (positionToToken tokens position) = [].
Proof.
  unfold onRenameRequest. cbv zeta.
  destruct (findIdentifiers heap Rename tokens (positionToToken tokens position));
    simpl; split; congruence.
Qed.

End Matching.
End ServerFacts.

(* ================================================================= *)
(** * The lint rules *)

Module LinterFacts.
Import Parser JS JSFacts Props.

Lemma filter_twice {A : Type} (f g : A -> bool) (l : list A) :
  filter g (filter f l) = filter (fun x => f x && g x) l.
Proof.
  induction l as [|a l IH]; simpl; [reflexivity|].
  destruct (f a); simpl; [destruct (g a)|]; now rewrite IH.
Qed.

Section AnyParser.
Variables inParam assigned assignable : Token -> bool.
Variable inLambda : Token -> option ref.
Variable identifier : Token -> option string.
Variable ordered : Token -> Token -> bool.

(** The two filters of [declaredAfterUse] as one test. *)
Lemma declaredAfterUse_test (tokens : list Token) (x : Token) :
  (negb (inParam x) && assigned x && assignable x)
  && truthy (find (fun target =>
                     negb (assigned target)
                     && assignable target
                     && ref_eq (inLambda target) (inLambda x)
                     && str_eq (identifier target) (identifier x)
                     && ordered target x)
                  tokens) = true
  <-> flagged inParam assigned assignable inLambda identifier ordered tokens x.
Proof.
  unfold flagged.
  rewrite !andb_true_iff, negb_true_iff, truthy_find.
  split.
  - intros [[[Hp Ha] Hb] [y [Hin Hy]]].
    rewrite !andb_true_iff, negb_true_iff, ref_eq_true, str_eq_true in Hy.
    repeat split; try tauto. exists y. tauto.
  - intros [Hp [Ha [Hb [y [Hin Hy]]]]].
    repeat split; try assumption. exists y. split; [assumption|].
    rewrite !andb_true_iff, negb_true_iff, ref_eq_true, str_eq_true. tauto.
Qed.

(** [unusedVar] flags only tokens for which [inLambda] reports an
    enclosing lambda. *)
Theorem unusedVar_inLambda (tokens : list Token) :
  Forall (fun x => exists l, inLambda x = Some l)
         (Linter.unusedVar inParam assigned assignable inLambda identifier tokens).
Proof.
  unfold Linter.unusedVar. apply Forall_forall. intros x H.
  apply filter_In in H. destruct H as [_ H]. rewrite !andb_true_iff in H.
  apply truthy_true. tauto.
Qed.

End AnyParser.

End LinterFacts.

(* ================================================================= *)
(** * The properties on the example sequences *)

Module Instances.
Import Parser Protocol JS JSFacts Props Examples.
Import HelperFacts ServerFacts LinterFacts.
Import QLangServer.

Example references_of_local_a :
  findIdentifiers heap0 Reference scope_tokens (Some local_a) = [local_a; use_a].
Proof. reflexivity. Qed.

Example references_of_arg_a :
  findIdentifiers heap0 Reference lambda_tokens (Some arg_a) = [param_a; arg_a].
Proof. reflexivity. Qed.

Example definition_of_arg_a :
  findIdentifiers heap0 Definition_ lambda_tokens (Some arg_a) = [param_a].
Proof. reflexivity. Qed.

Example label_without_namespace :
  getLabel (tok Identifier ".ns.f" 1 1 Assignment Global None None)
           (Some {| image := "x"; tokenType := Identifier;
                    startLine := None; startColumn := None;
                    endLine := None; endColumn := None;
                    kind := Parser.Reference; identifier := Some "x"%string;
                    identifierKind := Global; namespace := Some ".ns"%string;
                    scope := None; lambda := None; error := None |})
  = "f"%string.
Proof. reflexivity. Qed.

(** C1, as stated, fails: [reserved_a] has the scope reference and the
    identifier of the Local source [local_a], and Reference does not
    return it, because its identifier kind is Unassignable. *)
Lemma findIdentifiers_unguarded_counterexample :
  identifierKind local_a <> Unassignable
  /\ isLocal heap0 scope_tokens local_a = true
  /\ In reserved_a scope_tokens
  /\ scope reserved_a = scope local_a
  /\ identifier reserved_a = identifier local_a
  /\ ~ In reserved_a (findIdentifiers heap0 Reference scope_tokens (Some local_a))
  /\ ~ In reserved_a (findIdentifiers heap0 Rename scope_tokens (Some local_a)).
Proof.
  split; [discriminate|]. split; [reflexivity|].
  split; [simpl; auto|]. split; [reflexivity|]. split; [reflexivity|].
  split; intros [H|[H|[]]]; discriminate H.
Qed.

Lemma findIdentifiers_matching_witness :
  identifierKind local_a <> Unassignable
  /\ (Selected (ReferenceCandidate heap0 scope_tokens local_a) scope_tokens
               (findIdentifiers heap0 Reference scope_tokens (Some local_a))
      /\ findIdentifiers heap0 Rename scope_tokens (Some local_a)
         = findIdentifiers heap0 Reference scope_tokens (Some local_a)
      /\ Selected (DefinitionCandidate heap0 scope_tokens local_a) scope_tokens
                  (findIdentifiers heap0 Definition_ scope_tokens (Some local_a))).
Proof.
  split; [discriminate|].
  apply (@findIdentifiers_matching heap0 scope_tokens local_a). discriminate.
Defined.

Lemma rangeFromToken_spec_witness :
  QLangServer.rangeFromToken local_a
  = {| start := {| line := 0; character := 1 |};
       end_ := {| line := 0; character := 2 |} |}
  /\ Util.rangeFromToken local_a
     = {| start := {| line := 0; character := 1 |};
          end_ := {| line := 0; character := 2 |} |}.
Proof.
  apply (@rangeFromToken_spec local_a 1 2 1 2); (reflexivity || lia).
Defined.

(** C4, as stated, fails: [fn_f] opens a lambda, and the kind of its
    entry is Object, which is not the protocol's Function. *)
Lemma outline_kind_counterexample :
  topLevel fn_f
  /\ lambda fn_f = Some 0%nat
  /\ exists d,
       onDocumentSymbol lambda_tokens = [d]
       /\ symbolKind d = SymbolKind.Object
       /\ symbolKind d <> SymbolKind.Function.
Proof.
  split; [split; reflexivity|]. split; [reflexivity|].
  eexists. split; [reflexivity|]. split; [reflexivity | discriminate].
Qed.

(** C5, as stated, fails: the cursor after [a:1] resolves to the literal
    [1], whose identifier kind is Unassignable; [a] is an Assignment token
    that passes every test of the claim, and Completion returns nothing. *)
Lemma completion_unassignable_counterexample :
  positionToToken assign_tokens {| line := 0; character := 3 |} = Some literal_1
  /\ In global_a assign_tokens
  /\ CompletionCandidate literal_1 global_a
  /\ findIdentifiers heap0 Completion assign_tokens (Some literal_1) = []
  /\ onCompletion heap0 assign_tokens {| line := 0; character := 3 |} = [].
Proof.
  split; [reflexivity|]. split; [simpl; auto|].
  split; [|split; reflexivity].
  unfold CompletionCandidate. split; [reflexivity|].
  split; [discriminate|]. split; [now left | now right].
Qed.

Lemma completion_first_occurrences_witness :
  positionToToken assign_tokens {| line := 0; character := 0 |} = Some global_a
  /\ identifierKind global_a <> Unassignable
  /\ FirstOccurrences (CompletionCandidate global_a) [] assign_tokens
                      (findIdentifiers heap0 Completion assign_tokens
                                       (Some global_a))
  /\ Forall2 (fun token item =>
                itemKind item = match lambda token with
                                | Some _ => CompletionItemKind.Function
                                | None => CompletionItemKind.Variable_
                                end)
             (findIdentifiers heap0 Completion assign_tokens (Some global_a))
             (onCompletion heap0 assign_tokens {| line := 0; character := 0 |}).
Proof.
  split; [reflexivity|]. split; [discriminate|].
  apply (@completion_first_occurrences heap0 assign_tokens
           {| line := 0; character := 0 |} global_a);
    [reflexivity | discriminate].
Defined.

Example completion_of_global_a :
  onCompletion heap0 assign_tokens {| line := 0; character := 0 |}
  = [{| label := "a"; itemKind := CompletionItemKind.Variable_ |}].
Proof. reflexivity. Qed.

Lemma queries_without_source_witness :
  (exists token,
      positionToToken assign_tokens {| line := 0; character := 3 |} = Some token
      /\ identifierKind token = Unassignable)
  /\ onReferences heap0 assign_tokens "file:///a.q"
                  {| line := 0; character := 3 |} = []
  /\ onDefinition heap0 assign_tokens "file:///a.q"
                  {| line := 0; character := 3 |} = []
  /\ onCompletion heap0 assign_tokens {| line := 0; character := 3 |} = []
  /\ onRenameRequest heap0 assign_tokens "file:///a.q"
                     {| line := 0; character := 3 |} "b" = None.
Proof.
  assert (H : exists token,
             positionToToken assign_tokens {| line := 0; character := 3 |}
             = Some token
             /\ identifierKind token = Unassignable)
    by (exists literal_1; split; reflexivity).
  split; [exact H|].
  apply (@queries_without_source heap0 assign_tokens "file:///a.q"
           {| line := 0; character := 3 |} "b").
  right. exact H.
Defined.

Lemma rename_local_stays_in_scope_witness :
  isLocal heap0 scope_tokens local_a = true
  /\ Forall (fun token =>
               scope token = scope local_a
               /\ identifier token = identifier local_a)
            (findIdentifiers heap0 Rename scope_tokens (Some local_a)).
Proof.
  split; [reflexivity|].
  apply (@rename_local_stays_in_scope heap0 scope_tokens local_a). reflexivity.
Defined.

End Instances.

(* ================================================================= *)
(** * Further properties of the queries *)

Module QueryFacts.
Import Parser Protocol JS JSFacts Props HelperFacts ServerFacts.
Import QLangServer.

Section Queries.
Variable heap : Heap.

(** [isLocal] looks at the scope and the identifier of its target only. *)
Lemma isLocal_same_binding (tokens : list Token) (t u : Token) :
  scope t = scope u -> identifier t = identifier u ->
  isLocal heap tokens t = isLocal heap tokens u.
Proof.
  intros Hs Hi. unfold isLocal. rewrite Hs, Hi. reflexivity.
Qed.

(** X8.  An Assignment token that stands in the sequence inside a lambda
    is Local, whatever else the sequence holds. *)
Theorem assignment_in_lambda_isLocal (tokens : list Token) (t : Token) (s : ref) :
  In t tokens -> kind t = Assignment -> scope t = Some s ->
  isLocal heap tokens t = true.
Proof.
  intros Hin Hk Hs. apply isLocal_LocalIn.
  exists s. split; [assumption|]. right. exists t. auto.
Qed.

(** X9.  A token that is Local in a sequence stays Local in every sequence
    that holds the tokens of the first. *)
Theorem isLocal_monotone (tokens tokens' : list Token) (t : Token) :
  incl tokens tokens' ->
  isLocal heap tokens t = true -> isLocal heap tokens' t = true.
Proof.
  intros Hincl Hloc. apply isLocal_LocalIn. apply isLocal_LocalIn in Hloc.
  destruct Hloc as [s [Hs [Himp|[u [Hin Hu]]]]]; exists s; split; auto.
  right. exists u. split; [now apply Hincl | assumption].
Qed.

(** X4.  Reference returns the source token itself when the source is a
    token of the sequence, of type Identifier and not Unassignable. *)
Theorem references_include_source (tokens : list Token) (source : Token) :
  In source tokens -> tokenType source = Identifier ->
  identifierKind source <> Unassignable ->
  In source (findIdentifiers heap Reference tokens (Some source)).
Proof.
  intros Hin Hty Hk. apply isUnassignable_false in Hk.
  unfold findIdentifiers. rewrite Hk.
  destruct (isLocal heap tokens source) eqn:Hloc;
    apply filter_In; (split; [assumption|]);
    rewrite Hty, Hk, str_eq_refl; simpl.
  - apply ref_eq_refl.
  - now rewrite Hloc.
Qed.

(** Two sources with one identifier and one locality (and one scope, when
    they are Local) have the same matches. *)
Lemma findIdentifiers_same_binding (k : FindKind) (tokens : list Token)
  (s1 s2 : Token) :
  k <> Completion ->
  isUnassignable (identifierKind s1) = isUnassignable (identifierKind s2) ->
  identifier s1 = identifier s2 ->
  isLocal heap tokens s1 = isLocal heap tokens s2 ->
  (isLocal heap tokens s1 = true -> scope s1 = scope s2) ->
  findIdentifiers heap k tokens (Some s1) = findIdentifiers heap k tokens (Some s2).
Proof.
  intros Hk Hu Hi Hl Hs. unfold findIdentifiers.
  rewrite <- Hu, <- Hi, <- Hl.
  destruct (isUnassignable (identifierKind s1)); [reflexivity|].
  destruct (isLocal heap tokens s1).
  - rewrite <- (Hs eq_refl). destruct k; congruence.
  - destruct k; congruence.
Qed.

(** X5.  Every token that Reference returns is a source with the same
    results: Reference, Rename and Definition return for it what they
    return for the source it was found from. *)
Theorem references_closed (tokens : list Token) (source : Token) :
  Forall (fun t =>
            forall k, k <> Completion ->
              findIdentifiers heap k tokens (Some t)
              = findIdentifiers heap k tokens (Some source))
         (findIdentifiers heap Reference tokens (Some source)).
Proof.
  apply Forall_forall. intros t Ht k Hk.
  unfold findIdentifiers in Ht.
  destruct (isUnassignable (identifierKind source)) eqn:Hu; [destruct Ht|].
  destruct (isLocal heap tokens source) eqn:Hloc;
    apply filter_In in Ht; destruct Ht as [_ Ht];
    rewrite !andb_true_iff, negb_true_iff, str_eq_true in Ht;
    destruct Ht as [[[_ Htu] Hti] Hts].
  - apply ref_eq_true in Hts.
    apply findIdentifiers_same_binding; try congruence.
    now apply isLocal_same_binding.
  - apply negb_true_iff in Hts.
    apply findIdentifiers_same_binding; congruence.
Qed.

(** X6.  The tokens of type Identifier that Definition returns are the
    Assignment tokens that Reference returns. *)
Theorem definition_within_references (tokens : list Token) (source : option Token) :
  filter (fun t => tokenType_eqb (tokenType t) Identifier)
         (findIdentifiers heap Definition_ tokens source)
  = filter (fun t => isAssignment (kind t))
           (findIdentifiers heap Reference tokens source).
Proof.
  unfold findIdentifiers.
  destruct source as [source|]; [|reflexivity].
  destruct (isUnassignable (identifierKind source)); [reflexivity|].
  destruct (isLocal heap tokens source);
    rewrite !LinterFacts.filter_twice; apply filter_ext; intros t;
    destruct (tokenType_eqb (tokenType t) Identifier),
      (isAssignment (kind t)),
      (negb (isUnassignable (identifierKind t))),
      (str_eq (identifier t) (identifier source));
    simpl; try reflexivity;
    rewrite ?andb_true_r, ?andb_false_r; reflexivity.
Qed.

(** X3.  Rename returns no edit when Reference returns no location;
    otherwise it returns, for the one document, one edit per location of
    Reference, in the same order, each replacing the location's range by
    the new name. *)
Theorem rename_edits_reference_locations
  (tokens : list Token) (uri : string) (position : Position) (newName : string) :
  onRenameRequest heap tokens uri position newName
  = match onReferences heap tokens uri position with
    | [] => None
    | locations =>
        Some {| changes :=
                  [(uri, map (fun l => TextEdit_replace (range l) newName)
                             locations)] |}
    end.
Proof.
  unfold onRenameRequest, onReferences. cbv zeta.
  assert (Hsame : findIdentifiers heap Rename tokens
                    (positionToToken tokens position)
                  = findIdentifiers heap Reference tokens
                      (positionToToken tokens position)).
  { unfold findIdentifiers. destruct (positionToToken tokens position);
      reflexivity. }
  rewrite Hsame.
  destruct (findIdentifiers heap Reference tokens
              (positionToToken tokens position)) as [|t r]; simpl;
    [reflexivity|].
  rewrite map_map. reflexivity.
Qed.

(** ** Resolving a position *)

(** [find] returns the first element that passes the test. *)
Lemma find_first {A : Type} (f : A -> bool) (l : list A) (x : A) :
  find f l = Some x
  <-> exists before after,
        l = before ++ x :: after
        /\ f x = true
        /\ Forall (fun u => f u = false) before.
Proof.
  induction l as [|a l IH]; simpl.
  - split; [discriminate|].
    intros [before [after [H _]]]. destruct before; discriminate.
  - destruct (f a) eqn:Ha.
    + split.
      * intros [= <-]. exists [], l. simpl. auto.
      * intros [before [after [Heq [Hx Hbefore]]]].
        destruct before as [|b before]; simpl in Heq.
        -- now injection Heq as ->.
        -- injection Heq as -> _. inversion Hbefore; subst. congruence.
    + rewrite IH. split.
      * intros [before [after [-> [Hx Hbefore]]]].
        exists (a :: before), after. simpl. auto.
      * intros [before [after [Heq [Hx Hbefore]]]].
        destruct before as [|b before]; simpl in Heq.
        -- injection Heq as -> _. congruence.
        -- injection Heq as -> ->. inversion Hbefore; subst.
           exists before, after. auto.
Qed.

(** X10.  [positionToToken] returns the first token of the sequence whose
    span contains the position: no token before it does. *)
Theorem positionToToken_first
  (tokens : list Token) (position : Position) (t : Token) :
  positionToToken tokens position = Some t
  <-> exists before after,
        tokens = before ++ t :: after
        /\ spanContains t position
        /\ Forall (fun u => ~ spanContains u position) before.
Proof.
  unfold positionToToken. rewrite find_first.
  split; intros [before [after [Heq [Ht Hbefore]]]];
    exists before, after; (split; [assumption|]); split.
  - now apply span_test.
  - eapply Forall_impl; [|exact Hbefore]. intros u Hu Hc.
    apply span_test in Hc. congruence.
  - now apply span_test.
  - eapply Forall_impl; [|exact Hbefore]. intros u Hu.
    match goal with |- ?b = false => destruct b eqn:Hb end; [|reflexivity].
    exfalso. apply Hu. now apply span_test.
Qed.

(** X11.  The range of a token that [positionToToken] returns is not
    inverted: its start line and character are not beyond its end line
    and character.  A token that ends on a later line in a column more
    than one before its start column is never returned. *)
Theorem positionToToken_range_ordered
  (tokens : list Token) (position : Position) :
  match positionToToken tokens position with
  | None => True
  | Some t =>
      (line (start (rangeFromToken t)) <= line (end_ (rangeFromToken t)))%Z
      /\ (character (start (rangeFromToken t))
          <= character (end_ (rangeFromToken t)))%Z
  end.
Proof.
  destruct (positionToToken tokens position) as [t|] eqn:Hpos; [|exact I].
  apply positionToToken_first in Hpos.
  destruct Hpos as [before [after [_ [[Hl Hc] _]]]]. cbv zeta in Hl, Hc.
  lia.
Qed.

(** X12.  The position right after a one-line token (its line, its end
    column as the character) resolves to that token unless an earlier
    token's span contains it, whatever follows the token: the token that
    starts there does not take the position. *)
Theorem positionToToken_after_token
  (before after : list Token) (t : Token) (ln sc ec : Z) :
  startLine t = Some ln -> endLine t = Some ln ->
  startColumn t = Some sc -> endColumn t = Some ec ->
  (1 <= ln)%Z -> (1 <= sc <= ec)%Z ->
  Forall (fun u => ~ spanContains u {| line := ln - 1; character := ec |}) before ->
  positionToToken (before ++ t :: after) {| line := ln - 1; character := ec |}
  = Some t.
Proof.
  intros Hsl Hel Hsc Hec Hln Hcols Hbefore.
  apply positionToToken_first. exists before, after.
  split; [reflexivity|]. split; [|assumption].
  unfold spanContains, rangeFromToken, Range_create; simpl.
  rewrite Hsl, Hel, Hsc, Hec.
  rewrite !num_or_nonzero by lia. lia.
Qed.

(** ** Labels *)

Lemma append_assoc (a b c : string) :
  ((a ++ b) ++ c)%string = (a ++ (b ++ c))%string.
Proof. induction a as [|x a IH]; simpl; [reflexivity | now rewrite IH]. Qed.

Lemma prefix_append (p r : string) : String.prefix p (p ++ r)%string = true.
Proof.
  induction p as [|x p IH]; simpl; [now destruct r|].
  destruct (Ascii.ascii_dec x x); [assumption | contradiction].
Qed.

Lemma drop_append (p r : string) : drop (String.length p) (p ++ r)%string = r.
Proof. induction p as [|x p IH]; simpl; [reflexivity | assumption]. Qed.

Lemma removeFirst_unfold (pat s : string) :
  removeFirst pat s
  = if String.prefix pat s then drop (String.length pat) s
    else match s with
         | EmptyString => EmptyString
         | String c r => String c (removeFirst pat r)
         end.
Proof. destruct s; reflexivity. Qed.

Lemma removeFirst_prefix (pat r : string) :
  removeFirst pat (pat ++ r)%string = r.
Proof.
  rewrite removeFirst_unfold, prefix_append. apply drop_append.
Qed.

(** X13.  For a token whose identifier is the cursor token's namespace, a
    dot and a rest, the label is the rest: a completion in the cursor's
    namespace is offered by its unqualified name. *)
Theorem getLabel_strips_namespace (token source : Token) (ns rest : string) :
  namespace source = Some ns -> ns <> EmptyString ->
  identifier token = Some (ns ++ "." ++ rest)%string ->
  getLabel token (Some source) = rest.
Proof.
  intros Hns Hne Hid. unfold getLabel. rewrite Hid, Hns.
  assert (Hlabel : str_or (Some (ns ++ "." ++ rest)%string) (image token)
                   = (ns ++ "." ++ rest)%string).
  { destruct ns; [contradiction | reflexivity]. }
  rewrite Hlabel. unfold startsWith. rewrite prefix_append.
  assert (Hn : negb (String.eqb ns EmptyString) = true).
  { destruct ns; [contradiction | reflexivity]. }
  rewrite Hn. simpl andb. cbv iota.
  rewrite <- append_assoc. apply removeFirst_prefix.
Qed.

(** A label is the token's own label when the cursor token has no
    namespace, or when the token's label does not start with it. *)
Lemma getLabel_outside_namespace (token : Token) (source : option Token) :
  (forall src ns,
      source = Some src -> namespace src = Some ns ->
      startsWith (str_or (identifier token) (image token)) ns = false) ->
  getLabel token source = str_or (identifier token) (image token).
Proof.
  intros H. unfold getLabel.
  destruct source as [src|]; [|reflexivity].
  destruct (namespace src) as [ns|] eqn:Hns; [|reflexivity].
  rewrite (H src ns eq_refl Hns), andb_false_r. reflexivity.
Qed.

(** ** The outline *)

(** X14.  The outline has two levels at most: no child of a top-level
    entry has children, and the entry of a token that opens no lambda has
    no child. *)
Theorem outline_two_levels (tokens : list Token) :
  Forall2 (fun t d =>
             (lambda t = None -> symbolChildren d = [])
             /\ Forall (fun c => symbolChildren c = []) (symbolChildren d))
          (filter (fun token =>
                     isAssignment (kind token) && negb (truthy (scope token)))
                  tokens)
          (onDocumentSymbol tokens).
Proof.
  unfold onDocumentSymbol. apply Forall2_map_r. intros t _. simpl. split.
  - intros Hl. rewrite Hl.
    assert (Hnone : forall l : list Token,
               filter (fun child =>
                         truthy (scope child) && ref_eq (scope child) None
                         && isAssignment (kind child)) l = []).
    { induction l as [|c l IH]; simpl; [reflexivity|].
      destruct (scope c); simpl; assumption. }
    now rewrite Hnone.
  - apply Forall_forall. intros c Hc. apply in_map_iff in Hc.
    destruct Hc as [child [<- _]]. reflexivity.
Qed.

(** ** Completion and the cursor *)

(** X7.  Completion looks at the namespace and the scope of the cursor
    token only: two cursor tokens with one namespace and one scope
    reference, neither of them Unassignable, get the same completions. *)
Theorem completion_same_context (tokens : list Token) (s1 s2 : Token) :
  namespace s1 = namespace s2 -> scope s1 = scope s2 ->
  identifierKind s1 <> Unassignable -> identifierKind s2 <> Unassignable ->
  findIdentifiers heap Completion tokens (Some s1)
  = findIdentifiers heap Completion tokens (Some s2).
Proof.
  intros Hn Hs H1 H2.
  apply isUnassignable_false in H1. apply isUnassignable_false in H2.
  unfold findIdentifiers, completionFilter. rewrite H1, H2, Hn, Hs.
  reflexivity.
Qed.

End Queries.
End QueryFacts.

(* ================================================================= *)
(** * Requests for documents *)

Module RequestFacts.
Import Parser Protocol JS JSFacts Props.
Import Requests.

(** X15.  A request for a document the server does not hold is answered
    with an empty outline, no location, no edit and no completion,
    whatever the parser and the position are. *)
Theorem unknown_document_requests
  (heap : Heap) (parser : string -> list Token)
  (documents : string -> option string)
  (uri : string) (position : Position) (newName : string) :
  documents uri = None ->
  documentSymbolRequest parser documents uri = []
  /\ referencesRequest heap parser documents uri position = []
  /\ definitionRequest heap parser documents uri position = []
  /\ renameRequest heap parser documents uri position newName = None
  /\ completionRequest heap parser documents uri position = [].
Proof.
  intros Hdoc.
  unfold documentSymbolRequest, referencesRequest, definitionRequest,
    renameRequest, completionRequest, parse.
  rewrite Hdoc. repeat split; reflexivity.
Qed.

End RequestFacts.

(* ================================================================= *)
(** * How the lint rules relate *)

Module RuleFacts.
Import Parser JS JSFacts Props LinterFacts.

Section AnyParser.
Variables inParam assigned assignable : Token -> bool.
Variable inLambda : Token -> option ref.
Variable identifier : Token -> option string.
Variable ordered : Token -> Token -> bool.

(** A read of [x]'s name in [x]'s lambda: a token that is assignable and
    not assigned, with [x]'s enclosing lambda and identifier. *)
Lemma read_test (x y : Token) :
  negb (assigned y) && assignable y
  && ref_eq (inLambda y) (inLambda x)
  && str_eq (identifier y) (identifier x) = true
  <-> readOf assigned assignable inLambda identifier x y.
Proof.
  unfold readOf.
  rewrite !andb_true_iff, negb_true_iff, ref_eq_true, str_eq_true. tauto.
Qed.

Lemma no_read_test (tokens : list Token) (x : Token) :
  negb (truthy (find (fun target =>
                        negb (assigned target) && assignable target
                        && ref_eq (inLambda target) (inLambda x)
                        && str_eq (identifier target) (identifier x))
                     tokens)) = true
  <-> ~ exists y, In y tokens
                  /\ readOf assigned assignable inLambda identifier x y.
Proof.
  rewrite negb_true_iff. split.
  - intros Hf [y [Hin Hy]].
    assert (Ht : truthy (find (fun target =>
                        negb (assigned target) && assignable target
                        && ref_eq (inLambda target) (inLambda x)
                        && str_eq (identifier target) (identifier x))
                     tokens) = true).
    { apply truthy_find. exists y. split; [assumption|]. now apply read_test. }
    congruence.
  - intros Hn.
    match goal with |- ?b = false => destruct b eqn:Hb end; [|reflexivity].
    exfalso. apply Hn. apply truthy_find in Hb.
    destruct Hb as [y [Hin Hy]]. exists y. split; [assumption|].
    now apply read_test.
Qed.

(** X17.  No token is flagged both as an unused parameter and as an
    unused variable. *)
Theorem unused_rules_disjoint (tokens : list Token) :
  Forall (fun x =>
            ~ In x (Linter.unusedVar inParam assigned assignable inLambda
                                     identifier tokens))
         (Linter.unusedParam inParam assigned assignable inLambda identifier
                             tokens).
Proof.
  apply Forall_forall. intros x Hp Hv.
  unfold Linter.unusedParam in Hp. unfold Linter.unusedVar in Hv.
  apply filter_In in Hp. apply filter_In in Hv.
  destruct Hp as [_ Hp]. destruct Hv as [_ Hv].
  rewrite !andb_true_iff in Hp. rewrite !andb_true_iff in Hv.
  destruct Hp as [[[Hp _] _] _]. destruct Hv as [[[[Hv _] _] _] _].
  apply negb_true_iff in Hv. congruence.
Qed.

(** X18.  A token that DECLARED_AFTER_USE flags is flagged neither as an
    unused variable nor as an unused parameter: the use that stands
    before it is a read of it. *)
Theorem declaredAfterUse_not_unused (tokens : list Token) :
  Forall (fun x =>
            ~ In x (Linter.unusedVar inParam assigned assignable inLambda
                                     identifier tokens)
            /\ ~ In x (Linter.unusedParam inParam assigned assignable inLambda
                                          identifier tokens))
         (Linter.declaredAfterUse inParam assigned assignable inLambda
                                  identifier ordered tokens).
Proof.
  apply Forall_forall. intros x Hx.
  unfold Linter.declaredAfterUse in Hx. rewrite filter_twice in Hx.
  apply filter_In in Hx. destruct Hx as [_ Hx].
  apply declaredAfterUse_test in Hx.
  destruct Hx as [_ [_ [_ [y [Hin [Hya [Hyb [Hl [Hi _]]]]]]]]].
  assert (Hread : exists y, In y tokens
                    /\ readOf assigned assignable inLambda identifier x y).
  { exists y. unfold readOf. auto. }
  split; intros Hc; apply filter_In in Hc; destruct Hc as [_ Hc];
    rewrite !andb_true_iff in Hc; destruct Hc as [_ Hc];
    apply no_read_test in Hc; contradiction.
Qed.

End AnyParser.
End RuleFacts.

(* ================================================================= *)
(** * [queryUtils.ts]: queries and the console table *)

Module QueryUtilsFacts.
Import JSString QueryUtils.

(** ** Strings *)

Lemma length_append (a b : string) :
  String.length (a ++ b)%string = String.length a + String.length b.
Proof. induction a as [|c a IH]; simpl; [reflexivity | now rewrite IH]. Qed.

Lemma length_repeat_char (c : ascii) (n : nat) :
  String.length (repeat (String c EmptyString) n) = n.
Proof. induction n as [|n IH]; simpl; [reflexivity | now rewrite IH]. Qed.

Lemma lastChar_append (q : string) (c : ascii) :
  lastChar (q ++ String c EmptyString)%string = String c EmptyString.
Proof.
  induction q as [|x q IH]; simpl; [reflexivity|].
  rewrite IH. destruct q; reflexivity.
Qed.

Lemma dropLast_append (q : string) (c : ascii) :
  dropLast (q ++ String c EmptyString)%string = q.
Proof.
  induction q as [|x q IH]; simpl; [reflexivity|].
  rewrite IH. destruct q; reflexivity.
Qed.

Lemma length_dropLast (q : string) :
  q <> EmptyString -> S (String.length (dropLast q)) = String.length q.
Proof.
  induction q as [|x q IH]; intros Hq; [contradiction|].
  destruct q as [|y q]; [reflexivity|].
  change (dropLast (String x (String y q)))
    with (String x (dropLast (String y q))).
  simpl String.length. f_equal. apply IH. discriminate.
Qed.

Lemma backtick_append (q r : string) :
  q <> EmptyString ->
  String.prefix "`" (q ++ r)%string = String.prefix "`" q.
Proof.
  destruct q as [|x q]; [contradiction|]. intros _.
  cbn [String.prefix String.append].
  destruct (Ascii.ascii_dec "`"%char x); [|reflexivity].
  now destruct (q ++ r)%string, q.
Qed.

(** ** [sanitizeQuery] *)

(** X19.  A query that does not start with a backtick and is followed
    by one semicolon is sanitized to the query: exactly one trailing
    semicolon is removed. *)
Theorem sanitizeQuery_removes_one_semicolon (q : string) :
  String.prefix "`" q = false ->
  sanitizeQuery (q ++ ";")%string = q.
Proof.
  intros Hq. unfold sanitizeQuery.
  assert (Hp : String.prefix "`" (q ++ ";")%string = false).
  { destruct q as [|x q]; [reflexivity|].
    now rewrite backtick_append by discriminate. }
  rewrite Hp, lastChar_append. simpl String.eqb. cbv iota.
  apply dropLast_append.
Qed.

(** X20.  [sanitizeQuery] leaves a query as it is exactly when the query
    neither starts with a backtick nor ends with a semicolon. *)
Theorem sanitizeQuery_unchanged_iff (q : string) :
  sanitizeQuery q = q
  <-> String.prefix "`" q = false /\ lastChar q <> ";"%string.
Proof.
  unfold sanitizeQuery.
  destruct (String.prefix "`" q) eqn:Hp.
  - split; [|intros [H _]; discriminate].
    intros H. apply (f_equal String.length) in H.
    rewrite length_append in H. simpl in H. lia.
  - destruct (String.eqb_spec (lastChar q) ";") as [Hl|Hl].
    + split; [|intros [_ H]; contradiction].
      intros H. exfalso.
      assert (Hne : q <> EmptyString) by (intros ->; discriminate).
      pose proof (length_dropLast Hne) as Hlen. rewrite H in Hlen. lia.
    + tauto.
Qed.

(** ** [checkIfIsPropVal] *)

(** X21.  [checkIfIsPropVal] holds exactly of the two columns Property
    and Value, in either order. *)
Theorem checkIfIsPropVal_iff (columns : list string) :
  checkIfIsPropVal columns = true
  <-> columns = ["Property"; "Value"]%string
      \/ columns = ["Value"; "Property"]%string.
Proof.
  unfold checkIfIsPropVal. split.
  - destruct columns as [|a [|b [|c l]]];
      cbn [List.length Nat.eqb existsb andb]; try discriminate.
    rewrite !orb_false_r, !andb_true_iff, !orb_true_iff, !String.eqb_eq.
    intros [[Ha|Hb] [Ha'|Hb']]; subst; try discriminate; auto.
  - intros [->| ->]; reflexivity.
Qed.

(** ** [convertRowsToConsole] *)

Lemma maxStep_None (j : nat) (vector : list (list string)) :
  fold_left (maxStep j) vector None = None.
Proof. induction vector as [|row v IH]; simpl; [reflexivity | assumption]. Qed.

(** The reduce throws on a row without the cell, and otherwise returns a
    bound of the cells' lengths. *)
Lemma maxStep_fold (j : nat) (vector : list (list string)) (m0 : nat) :
  match fold_left (maxStep j) vector (Some m0) with
  | None => exists row, In row vector /\ nth_error row j = None
  | Some m =>
      m0 <= m
      /\ forall row, In row vector ->
           exists v, nth_error row j = Some v /\ String.length v <= m
  end.
Proof.
  revert m0. induction vector as [|row v IH]; intros m0; cbn [fold_left].
  - split; [lia | intros row []].
  - unfold maxStep at 2. destruct (nth_error row j) as [value|] eqn:Hrow.
    + specialize (IH (Nat.max m0 (String.length value))).
      destruct (fold_left (maxStep j) v
                  (Some (Nat.max m0 (String.length value)))) as [m|].
      * destruct IH as [Hm Hv]. split; [lia|].
        intros r [<-|Hr]; [|auto]. exists value. split; [assumption | lia].
      * destruct IH as [r [Hr Hn]]. exists r. split; [now right | assumption].
    + rewrite maxStep_None. exists row. split; [now left | assumption].
Qed.

Lemma countersFrom_None (vector : list (list string)) (n j : nat) :
  countersFrom vector j n = None ->
  exists i, j <= i < j + n /\ maxLength vector i = None.
Proof.
  revert j. induction n as [|n IH]; intros j; simpl; [discriminate|].
  destruct (maxLength vector j) as [m|] eqn:Hm.
  - destruct (countersFrom vector (S j) n) eqn:Hc; [discriminate|].
    intros _. destruct (IH (S j) Hc) as [i [Hi Hn]]. exists i. split; [lia | auto].
  - intros _. exists j. split; [lia | assumption].
Qed.

Lemma countersFrom_Some (vector : list (list string)) (n j : nat)
  (counters : list nat) :
  countersFrom vector j n = Some counters ->
  List.length counters = n
  /\ forall i c, nth_error counters i = Some c ->
       exists m, maxLength vector (j + i) = Some m /\ c = m + 2.
Proof.
  revert j counters. induction n as [|n IH]; intros j counters; simpl.
  - intros [= <-]. split; [reflexivity|]. intros [|i] c; discriminate.
  - destruct (maxLength vector j) as [m|] eqn:Hm; [|discriminate].
    destruct (countersFrom vector (S j) n) as [rest|] eqn:Hc; [|discriminate].
    intros [= <-]. destruct (IH (S j) rest Hc) as [Hlen Hnth].
    split; [simpl; now rewrite Hlen|].
    intros [|i] c; simpl.
    + intros [= <-]. exists m. rewrite Nat.add_0_r. auto.
    + intros Hi. destruct (Hnth i c Hi) as [m' [Hm' ->]].
      exists m'. split; [|reflexivity].
      now replace (j + S i) with (S j + i) by lia.
Qed.

(** A cell that is at least two shorter than its column's counter is
    padded to the counter. *)
Lemma padCell_length (haveHeader : bool) (counters : list nat) (j : nat)
  (value : string) (counter : nat) :
  nth_error counters j = Some counter ->
  String.length value + 2 <= counter ->
  String.length (padCell haveHeader counters j value) = counter.
Proof.
  intros Hc Hlen. unfold padCell. rewrite Hc. cbv zeta.
  destruct (Z.gtb_spec (Z.of_nat counter - Z.of_nat (String.length value)) 0)
    as [Hd|Hd]; [|lia].
  destruct (negb haveHeader
            && negb (Z.of_nat j =? Z.of_nat (List.length counters) - 1)%Z).
  - destruct (Z.gtb_spec (Z.of_nat counter - Z.of_nat (String.length value)) 1)
      as [Hd1|Hd1]; [|lia].
    rewrite !length_append, length_repeat_char. simpl String.length. lia.
  - rewrite length_append, length_repeat_char. lia.
Qed.

Lemma row_length (haveHeader : bool) (row : list string) (suf : list nat) :
  Forall2 (fun v c => String.length v + 2 <= c) row suf ->
  forall pre,
    String.length (join (mapi (padCell haveHeader (pre ++ suf))
                              (List.length pre) row))
    = list_sum suf.
Proof.
  induction 1 as [|v c row suf Hv _ IH]; intros pre; simpl; [reflexivity|].
  rewrite length_append.
  rewrite (padCell_length haveHeader (pre ++ c :: suf) (List.length pre) v
             (counter := c)).
  - f_equal. specialize (IH (pre ++ [c])).
    rewrite <- app_assoc, length_app in IH. simpl in IH.
    now rewrite Nat.add_1_r in IH.
  - rewrite nth_error_app2 by lia. now rewrite Nat.sub_diag.
  - assumption.
Qed.

Lemma Forall2_pointwise {A B : Type} (R : A -> B -> Prop) (l1 : list A) :
  forall l2,
    List.length l1 = List.length l2 ->
    (forall i a b, nth_error l1 i = Some a -> nth_error l2 i = Some b -> R a b) ->
    Forall2 R l1 l2.
Proof.
  induction l1 as [|a l1 IH]; intros [|b l2] Hlen H; try discriminate;
    constructor.
  - apply (H 0); reflexivity.
  - apply IH; [simpl in Hlen; lia|].
    intros i x y Hx Hy. apply (H (S i)); assumption.
Qed.

Lemma sum_counters (counters : list nat) (a : nat) :
  fold_left Nat.add counters a = a + list_sum counters.
Proof.
  revert a. induction counters as [|c l IH]; intros a; simpl; [lia|].
  rewrite IH. lia.
Qed.

(** The counters of a table whose rows are no shorter than its first. *)
Lemma columnCounters_Some (vector : list (list string)) :
  (forall row, In row vector ->
     List.length (hd [] vector) <= List.length row) ->
  exists counters,
    columnCounters vector = Some counters
    /\ List.length counters = List.length (hd [] vector)
    /\ forall row i v c,
         In row vector -> nth_error row i = Some v ->
         nth_error counters i = Some c -> String.length v + 2 <= c.
Proof.
  intros Hrows. unfold columnCounters.
  destruct (countersFrom vector 0 (List.length (hd [] vector)))
    as [counters|] eqn:Hc.
  - exists counters. split; [reflexivity|].
    destruct (countersFrom_Some _ _ _ Hc) as [Hlen Hnth].
    split; [assumption|].
    intros row i v c Hrow Hv Hci.
    destruct (Hnth i c Hci) as [m [Hm ->]]. simpl in Hm.
    unfold maxLength in Hm. pose proof (maxStep_fold i vector 0) as Hf.
    rewrite Hm in Hf. destruct Hf as [_ Hf].
    destruct (Hf row Hrow) as [v' [Hv' Hle]].
    rewrite Hv in Hv'. injection Hv' as <-. lia.
  - exfalso. destruct (countersFrom_None _ _ _ Hc) as [i [Hi Hn]].
    unfold maxLength in Hn. pose proof (maxStep_fold i vector 0) as Hf.
    rewrite Hn in Hf. destruct Hf as [row [Hrow Hnone]].
    apply nth_error_None in Hnone. specialize (Hrows row Hrow). lia.
Qed.

(** The call throws exactly on a table with a row shorter than its first
    row. *)
Lemma columnCounters_None (vector : list (list string)) :
  columnCounters vector = None
  <-> exists row, In row vector
                  /\ List.length row < List.length (hd [] vector).
Proof.
  split.
  - intros Hc. unfold columnCounters in Hc.
    destruct (countersFrom_None _ _ _ Hc) as [i [Hi Hn]].
    unfold maxLength in Hn. pose proof (maxStep_fold i vector 0) as Hf.
    rewrite Hn in Hf. destruct Hf as [row [Hrow Hnone]].
    apply nth_error_None in Hnone. exists row. split; [assumption | lia].
  - intros [row [Hrow Hlt]].
    destruct (columnCounters vector) as [counters|] eqn:Hc; [|reflexivity].
    exfalso. unfold columnCounters in Hc.
    destruct (countersFrom_Some _ _ _ Hc) as [Hlen Hnth].
    destruct (nth_error counters (List.length row)) as [c|] eqn:Hci.
    + destruct (Hnth _ c Hci) as [m [Hm _]]. simpl in Hm.
      unfold maxLength in Hm.
      pose proof (maxStep_fold (List.length row) vector 0) as Hf.
      rewrite Hm in Hf. destruct Hf as [_ Hf].
      destruct (Hf row Hrow) as [v [Hv _]].
      assert (Hnone : nth_error row (List.length row) = None)
        by (apply nth_error_None; lia).
      congruence.
    + apply nth_error_None in Hci. lia.
Qed.

(** X22.  [convertRowsToConsole] throws exactly when a row of the table
    has fewer cells than the table's first row (the header, when there is
    one); an empty array and a table with longer rows are laid out. *)
Theorem convertRowsToConsole_throws_iff (rows : list string) :
  snd (convertRowsToConsole rows) = None
  <-> exists row, In row (vectorOf rows)
                  /\ List.length row < List.length (hd [] (vectorOf rows)).
Proof.
  destruct rows as [|first rest].
  - simpl. split; [discriminate | intros [row [[] _]]].
  - rewrite <- columnCounters_None. unfold convertRowsToConsole. cbv zeta.
    destruct (columnCounters (vectorOf (first :: rest))); simpl;
      split; congruence.
Qed.

(** X23.  The call leaves the array it is given without its header row,
    also when it throws, and the lines it returns are one per row, with
    one more line, the rule under the header, when there is a header. *)
Theorem convertRowsToConsole_lines (rows : list string) :
  fst (convertRowsToConsole rows) = (if haveHeader rows then tl rows else rows)
  /\ forall out,
       snd (convertRowsToConsole rows) = Some out ->
       List.length out
       = List.length rows + (if haveHeader rows then 1 else 0).
Proof.
  destruct rows as [|first rest].
  - simpl. split; [reflexivity|]. now intros out [= <-].
  - unfold convertRowsToConsole, haveHeader. cbv zeta.
    destruct (columnCounters (vectorOf (first :: rest))) as [counters|].
    + split; [reflexivity|]. intros out. cbn [snd]. intros [= <-].
      destruct (includes headerSeparator first);
        cbn [map List.length]; rewrite !length_map; lia.
    + split; [reflexivity|]. intros out. cbn [snd]. discriminate.
Qed.

(** X24.  When every row of the table has as many cells as its first
    row, the call returns lines that all have one length, the sum of the
    column counters: the cells of a column are padded to one width, and
    the rule under a header is as long as the rows. *)
Theorem convertRowsToConsole_aligned (rows : list string) :
  rectangular (vectorOf rows) ->
  exists out width,
    snd (convertRowsToConsole rows) = Some out
    /\ Forall (fun l => String.length l = width) out.
Proof.
  intros Hrect. destruct rows as [|first rest].
  - exists [], 0. split; [reflexivity | constructor].
  - destruct (columnCounters_Some (vectorOf (first :: rest)))
      as [counters [Hc [Hlen Hcells]]].
    { intros row Hrow. rewrite (Hrect row Hrow). lia. }
    unfold convertRowsToConsole. cbv zeta. rewrite Hc. cbn [snd].
    assert (Hrows : Forall (fun l => String.length l = list_sum counters)
                      (map join
                         (map (mapi (padCell (includes headerSeparator first)
                                       counters) 0)
                              (vectorOf (first :: rest))))).
    { apply Forall_forall. intros l Hl.
      apply in_map_iff in Hl. destruct Hl as [padded [<- Hp]].
      apply in_map_iff in Hp. destruct Hp as [row [<- Hrow]].
      apply (row_length (includes headerSeparator first) (row := row)
               (suf := counters)) with (pre := []).
      apply Forall2_pointwise.
      - rewrite Hlen. now apply Hrect.
      - intros i v c Hv Hci. now apply (Hcells row i v c). }
    assert (Hrule : String.length
                      (repeat "-" (fold_left Nat.add counters 0))
                    = list_sum counters).
    { rewrite length_repeat_char, sum_counters. reflexivity. }
    eexists. exists (list_sum counters). split; [reflexivity|].
    destruct (includes headerSeparator first); [|assumption].
    destruct (map join _) as [|head others] eqn:Hres.
    + constructor; [assumption | constructor].
    + inversion Hrows; subst. constructor; [assumption|].
      constructor; assumption.
Qed.

End QueryUtilsFacts.

(* ================================================================= *)
(** * The further properties on the examples *)

Module MoreInstances.
Import Parser Protocol JS JSFacts Props Examples MoreExamples.
Import QueryFacts RequestFacts QueryUtilsFacts.
Import QLangServer.

Lemma assignment_in_lambda_isLocal_witness :
  isLocal heap0 lambda_tokens local_b = true.
Proof.
  apply (@assignment_in_lambda_isLocal heap0 lambda_tokens local_b 0%nat);
    [simpl; tauto | reflexivity | reflexivity].
Defined.

Lemma isLocal_monotone_witness :
  isLocal heap0 (scope_tokens ++ lambda_tokens) use_a = true.
Proof.
  apply (@isLocal_monotone heap0 scope_tokens (scope_tokens ++ lambda_tokens)
           use_a);
    [apply incl_appl, incl_refl | reflexivity].
Defined.

Lemma references_include_source_witness :
  In arg_a (findIdentifiers heap0 Reference lambda_tokens (Some arg_a)).
Proof.
  apply (@references_include_source heap0 lambda_tokens arg_a);
    [simpl; tauto | reflexivity | discriminate].
Defined.

Lemma positionToToken_after_token_witness :
  positionToToken ([] ++ global_a :: tl assign_tokens)
                  {| line := 1 - 1; character := 1 |}
  = Some global_a.
Proof.
  apply (@positionToToken_after_token [] (tl assign_tokens) global_a 1 1 1);
    (reflexivity || lia || constructor).
Defined.

Lemma getLabel_strips_namespace_witness :
  getLabel ns_f (Some ns_cursor) = "f"%string.
Proof.
  apply (@getLabel_strips_namespace ns_f ns_cursor ".ns" "f");
    [reflexivity | discriminate | reflexivity].
Defined.

Lemma completion_same_context_witness :
  findIdentifiers heap0 Completion lambda_tokens (Some arg_a)
  = findIdentifiers heap0 Completion lambda_tokens (Some local_b).
Proof.
  apply (@completion_same_context heap0 lambda_tokens arg_a local_b);
    (reflexivity || discriminate).
Defined.

Lemma unknown_document_requests_witness :
  Requests.documentSymbolRequest constant_parser no_documents "file:///a.q" = []
  /\ Requests.referencesRequest heap0 constant_parser no_documents
       "file:///a.q" {| line := 0; character := 0 |} = []
  /\ Requests.definitionRequest heap0 constant_parser no_documents
       "file:///a.q" {| line := 0; character := 0 |} = []
  /\ Requests.renameRequest heap0 constant_parser no_documents
       "file:///a.q" {| line := 0; character := 0 |} "b" = None
  /\ Requests.completionRequest heap0 constant_parser no_documents
       "file:///a.q" {| line := 0; character := 0 |} = [].
Proof.
  apply (@unknown_document_requests heap0 constant_parser no_documents
           "file:///a.q" {| line := 0; character := 0 |} "b").
  reflexivity.
Defined.

Lemma sanitizeQuery_removes_one_semicolon_witness :
  QueryUtils.sanitizeQuery ("select from t" ++ ";")%string
  = "select from t"%string.
Proof.
  apply (@sanitizeQuery_removes_one_semicolon "select from t"). reflexivity.
Defined.

Lemma convertRowsToConsole_aligned_witness :
  exists out width,
    snd (QueryUtils.convertRowsToConsole table_rows) = Some out
    /\ Forall (fun l => String.length l = width) out.
Proof.
  apply (@convertRowsToConsole_aligned table_rows).
  intros row [<-|[<-|[<-|[]]]]; reflexivity.
Defined.

Example convertRowsToConsole_of_table :
  QueryUtils.convertRowsToConsole table_rows
  = (tl table_rows,
     Some ["a    bc  "; "---------"; "1    2   "; "333  4   "]%string).
Proof. reflexivity. Qed.

Example convertRowsToConsole_without_header :
  QueryUtils.convertRowsToConsole ["a#$#;#$#1"; "bcd#$#;#$#22"]%string
  = (["a#$#;#$#1"; "bcd#$#;#$#22"]%string,
     Some ["a|   1   "; "bcd| 22  "]%string).
Proof. reflexivity. Qed.

End MoreInstances.
